(** * lifesim: a shallow embedding of [simulate.cc]

    The simulator advances income, expense and fund models week by week.
    This file embeds the model classes and the per-run driver of
    [src/simulate.cc], and the argument parser of [src/args.hh], and
    states the properties of its specification.

    Numbers.  The classes are embedded on exact rationals ([Q]), and the
    statements about them are written with the program's own operations,
    in the program's order.  They are kept to what rounding to nearest
    preserves: the outcome of the comparisons, that [x - x] is zero and
    [x + 0] is [x], and that sums, differences and products are monotone.
    Where a property would need a sum to be exact or to associate, it is
    decided on binary64 itself: [Float64] embeds [FundBase::buy] and
    [Cost::update_to] a second time, on the primitive floats, and the
    claims that rounding breaks are refuted there.  Overflow is not
    modelled.  The one non-finite value the program relies on, the
    default [duration_] of a model
    ([std::numeric_limits<double>::infinity()]), is kept apart in the type
    [ext].  A quotient by zero, infinite or not a number in IEEE
    arithmetic, is 0 in [Q]: the statements below either keep the divisor
    away from zero or do not depend on the value of the quotient.
    [std::exp] is a parameter of the definitions that call it.
    A [size_t] is a [Z]; where the program converts a negative [double]
    to [size_t] or indexes a vector out of range its behaviour is
    undefined, and the model says so ([undefined_behaviour]).  The sets of
    income and expense models, which [main] iterates in pointer order, are
    lists in some fixed order. *)

From Stdlib Require Import QArith Qround Qminmax ZArith Lia Lqa String.
From Stdlib Require Floats.
From Stdlib Require Import Sorted.
From stdpp Require Import base option list gmap.

Local Open Scope Q_scope.

Abbreviation double := Q (only parsing).

(** ** Comparisons and [<algorithm>] on doubles *)

Definition ltb (x y : double) : bool := negb (Qle_bool y x).
Definition leb (x y : double) : bool := Qle_bool x y.
Definition gtb (x y : double) : bool := ltb y x.
Definition geb (x y : double) : bool := leb y x.
Definition eqb (x y : double) : bool := Qeq_bool x y.

(** [std::min(a, b)] is [(b < a) ? b : a]; [std::max(a, b)] is
    [(a < b) ? b : a]. *)
Definition std_min (a b : double) : double := if ltb b a then b else a.
Definition std_max (a b : double) : double := if ltb a b then b else a.

(** [std::floor], read as an integer. *)
Definition floor (x : double) : Z := Qfloor x.

(** A double that may be [+infinity]. *)
Inductive ext : Type :=
  | finite (q : double)
  | infinity.

Definition ext_add (x : double) (e : ext) : ext :=
  match e with finite q => finite (x + q) | infinity => infinity end.
Definition ext_sub (e : ext) (x : double) : ext :=
  match e with finite q => finite (q - x) | infinity => infinity end.
(** [x / e]: a finite numerator over [+infinity] is zero. *)
Definition ext_div (x : double) (e : ext) : double :=
  match e with finite q => x / q | infinity => 0 end.
(** [x >= e] and [x > e]. *)
Definition ext_geb (x : double) (e : ext) : bool :=
  match e with finite q => geb x q | infinity => false end.
Definition ext_gtb (x : double) (e : ext) : bool :=
  match e with finite q => gtb x q | infinity => false end.

(** ** Outcomes of fallible code *)

Inductive failure : Type :=
  | runtime_error (what : string)
  | undefined_behaviour.

Inductive result (A : Type) : Type :=
  | Ok (a : A)
  | Fail (f : failure).
Arguments Ok {A} a.
Arguments Fail {A} f.

#[global] Instance result_ret : MRet result := fun A a => Ok a.
#[global] Instance result_bind : MBind result := fun A B k r =>
  match r with Ok a => k a | Fail f => Fail f end.

(** Conversion of a [double] that holds the integer [z] to [size_t]:
    undefined unless the value is representable. *)
Definition size_max : Z := 2 ^ 64.
Definition to_size_t (z : Z) : result Z :=
  if ((0 <=? z) && (z <? size_max))%Z then Ok z
  else Fail undefined_behaviour.

(** [v[i]] on a vector or mapped array: undefined out of range. *)
Definition read {A} (v : list A) (i : Z) : result A :=
  match v !! Z.to_nat i with
  | Some x => if (0 <=? i)%Z then Ok x else Fail undefined_behaviour
  | None => Fail undefined_behaviour
  end.
Definition store {A} (v : list A) (i : nat) (x : A) : result (list A) :=
  if (i <? length v)%nat then Ok (<[i := x]> v)
  else Fail undefined_behaviour.

(** A counted loop [for (i in idxs) a = body(i, a)] that stops at the
    first failure. *)
Fixpoint for_each {I A} (body : I -> A -> result A) (idxs : list I) (a : A)
    : result A :=
  match idxs with
  | [] => Ok a
  | i :: rest => a ← body i a; for_each body rest a
  end.

Definition sum (l : list double) : double := fold_right Qplus 0 l.

(** A double that holds a whole number of magnitude at most [2^53].  The
    sum and the difference of two such numbers, when they are again of
    that magnitude, are computed by binary64 without rounding. *)
Definition whole (x : double) : Prop :=
  exists z : Z, x == inject_Z z /\ (Z.abs z <= 2 ^ 53)%Z.

(** ** class ModelBase *)

Module ModelBase.

Record t : Type := Build {
  name_ : string;
  start_ : double;
  duration_ : ext;
  year_ : double
}.

Definition year (m : t) : double := year_ m.
Definition start (m : t) : double := start_ m.
Definition end_ (m : t) : ext := ext_add (start m) (duration_ m).

(** [set_year] stores the new year and returns the previous one. *)
Definition set_year (m : t) (year : double) : double * t :=
  (year_ m, Build (name_ m) (start_ m) (duration_ m) year).

(** [ModelBase::update_to], with the subclass's [update] passed in.
    [update] sees the object after [set_year]. *)
Definition update_to {M : Type} (base : M -> t) (with_base : M -> t -> M)
    (update : M -> double -> double * M) (s : M) (year : double)
    : double * M :=
  let '(prev, b) := set_year (base s) year in
  let s := with_base s b in
  let dt := year - prev in
  if ltb year (start_ b) then (0, s)
  else if ext_geb year (end_ b) then (0, s)
  else if leb dt 0 then (0, s)
  else update s dt.

End ModelBase.

(** ** class Cost *)

Module Cost.

Record t : Type := Build {
  base : ModelBase.t;
  total_ : double;
  remaining_ : double;
  down_ : double;
  close_ : double
}.

(** [Cost::update_to] overrides the base dispatch. *)
Definition update_to (c : t) (year : double) : double * t :=
  let '(prev, b) := ModelBase.set_year (base c) year in
  let dt := year - prev in
  if ltb year (ModelBase.start b) then
    (0, Build b (total_ c) (remaining_ c) (down_ c) (close_ c))
  else if ext_gtb year (ModelBase.end_ b) then
    let amount := remaining_ c + close_ c in
    (amount, Build b (total_ c) 0 (down_ c) 0)
  else if gtb (down_ c) 0 then
    let amount := down_ c in
    (amount,
     Build b (total_ c - down_ c) (remaining_ c - down_ c) 0 (close_ c))
  else
    let amount :=
      ext_div (dt * total_ c)
              (ext_sub (ModelBase.end_ b) (ModelBase.start b)) in
    let amount := std_min (remaining_ c) amount in
    (amount, Build b (total_ c) (remaining_ c - amount) (down_ c) (close_ c)).

(** Successive [update_to] calls, one per year of the list, with the
    values they return. *)
Fixpoint advance (c : t) (years : list double) : list double * t :=
  match years with
  | [] => ([], c)
  | year :: rest =>
      let '(amount, c) := update_to c year in
      let '(amounts, c) := advance c rest in
      (amount :: amounts, c)
  end.

(** The amortisation the specification describes (section 4.2), to compare
    [update_to] with: for each year of the list the step [dt] since the
    year before is charged [dt * total / span], capped at what remains,
    and what remains goes down by the amount charged.  Returns the amounts
    and what remains after the last. *)
Fixpoint amortise (total span prev remaining : double)
    (years : list double) : list double * double :=
  match years with
  | [] => ([], remaining)
  | year :: rest =>
      let amount := std_min remaining ((year - prev) * total / span) in
      let '(amounts, remaining) :=
        amortise total span year (remaining - amount) rest in
      (amount :: amounts, remaining)
  end.

(** The state the constructor's callbacks leave: [--total] sets both
    [total_] and [remaining_]. *)
Definition configured (name : string) (start : double) (duration : ext)
    (total down close : double) : t :=
  Build (ModelBase.Build name start duration 0) total total down close.

End Cost.

(** ** class Job *)

Module Job.

Record t : Type := Build {
  base : ModelBase.t;
  salary_ : double;
  rate_ : double
}.

Definition with_base (j : t) (b : ModelBase.t) : t :=
  Build b (salary_ j) (rate_ j).

Definition update (exp : double -> double) (j : t) (dt : double)
    : double * t :=
  let previous := ModelBase.year (base j) - dt in
  let salary :=
    if negb (floor previous =? floor (ModelBase.year (base j)))%Z
    then salary_ j * exp (rate_ j) else salary_ j in
  (dt * salary, Build (base j) salary (rate_ j)).

Definition update_to (exp : double -> double) : t -> double -> double * t :=
  ModelBase.update_to base with_base (update exp).

End Job.

(** ** class Spending *)

Module Spending.

Record t : Type := Build {
  base : ModelBase.t;
  annual_ : double;
  rate_ : double;
  linear_ : bool
}.

Definition with_base (s : t) (b : ModelBase.t) : t :=
  Build b (annual_ s) (rate_ s) (linear_ s).

Definition update (exp : double -> double) (s : t) (dt : double)
    : double * t :=
  let annual :=
    if linear_ s then annual_ s + dt * rate_ s
    else annual_ s * exp (rate_ s * dt) in
  (dt * annual, Build (base s) annual (rate_ s) (linear_ s)).

Definition update_to (exp : double -> double) : t -> double -> double * t :=
  ModelBase.update_to base with_base (update exp).

End Spending.

(** ** The income and expense models behind a [ModelBase::Ptr] *)

Module Model.

Inductive t : Type :=
  | job (j : Job.t)
  | spending (s : Spending.t)
  | cost (c : Cost.t).

Definition base (m : t) : ModelBase.t :=
  match m with
  | job j => Job.base j
  | spending s => Spending.base s
  | cost c => Cost.base c
  end.

(** The virtual call [model->update_to(year)]. *)
Definition update_to (exp : double -> double) (m : t) (year : double)
    : double * t :=
  match m with
  | job j => let '(x, j) := Job.update_to exp j year in (x, job j)
  | spending s =>
      let '(x, s) := Spending.update_to exp s year in (x, spending s)
  | cost c => let '(x, c) := Cost.update_to c year in (x, cost c)
  end.

(** The model with its time cursor moved and nothing else touched. *)
Definition at_year (m : t) (year : double) : t :=
  match m with
  | job j => job (Job.with_base j (ModelBase.set_year (Job.base j) year).2)
  | spending s =>
      spending
        (Spending.with_base s (ModelBase.set_year (Spending.base s) year).2)
  | cost c =>
      cost (Cost.Build (ModelBase.set_year (Cost.base c) year).2
              (Cost.total_ c) (Cost.remaining_ c) (Cost.down_ c)
              (Cost.close_ c))
  end.

End Model.

(** ** class FundBase *)

Module FundBase.

Record t : Type := Build {
  base : ModelBase.t;
  contributed_ : gmap Z double;
  contribution_limit_ : double;
  amount_ : double
}.

Definition amount (f : t) : double := amount_ f.

(** [contributed_[k]], which reads 0 for a year not yet in the map. *)
Definition contributed (f : t) (k : Z) : double :=
  default 0 (contributed_ f !! k).

Definition buy (f : t) (amount : double) : result (double * t) :=
  if ltb amount 0 then Ok (0, f)
  else if gtb (contribution_limit_ f) 0 then
    k ← to_size_t (floor (ModelBase.year (base f)));
    let remaining := contribution_limit_ f - contributed f k in
    let amount := std_min amount remaining in
    Ok (amount,
        Build (base f) (<[k := contributed f k + amount]> (contributed_ f))
          (contribution_limit_ f) (amount_ f + amount))
  else
    Ok (amount,
        Build (base f) (contributed_ f) (contribution_limit_ f)
          (amount_ f + amount)).

Definition sell (f : t) (amount : double) : double * t :=
  if ltb (ModelBase.year (base f)) (ModelBase.start (base f)) then (0, f)
  else if ltb amount 0 then (0, f)
  else if geb (amount_ f) amount then
    (amount,
     Build (base f) (contributed_ f) (contribution_limit_ f)
       (amount_ f - amount))
  else
    let removed := amount_ f in
    (removed, Build (base f) (contributed_ f) (contribution_limit_ f) 0).

(** [FundBase::update_to], with the subclass's [update_amount] passed in;
    it is called on the object after [set_year]. *)
Definition update_to
    (update_amount : ModelBase.t -> double -> double -> result double)
    (f : t) (year : double) : result (double * t) :=
  let '(prev, b) := ModelBase.set_year (base f) year in
  let dt := year - prev in
  a ← update_amount b (amount_ f) dt;
  Ok (a, Build b (contributed_ f) (contribution_limit_ f) a).

End FundBase.

(** ** class FixedRateFund *)

Module FixedRateFund.

Record t : Type := Build {
  base : FundBase.t;
  rate_ : double
}.

Definition update_amount (exp : double -> double) (f : t)
    (amount dt : double) : double :=
  amount * exp (rate_ f * dt).

End FixedRateFund.

(** ** class MarketFund *)

Module MarketFund.

(** The samples of the mapped file behind the static [file_]. *)
Abbreviation FileData := (list double) (only parsing).

Definition data_size (file_ : FileData) : Z := Z.of_nat (length file_).

Record t : Type := Build {
  base : FundBase.t;
  wrap_around_multiplier_ : double;
  day_offset_ : double
}.

(** What the constructor computes once the file is mapped.  The program
    divides two [float] samples; the quotient is kept here as it is. *)
Definition wrap_around_multiplier (file_ : FileData) : result double :=
  last ← read file_ ((data_size file_ - 1) mod size_max);
  first ← read file_ 0;
  Ok (last / first).

Definition make (file_ : FileData) (b : FundBase.t) : result t :=
  w ← wrap_around_multiplier file_;
  Ok (Build b w 0).

Definition set_offset_percent (file_ : FileData) (f : t) (percent : double)
    : t :=
  Build (base f) (wrap_around_multiplier_ f)
    (percent * inject_Z (data_size file_)).

Definition lookup (file_ : FileData) (f : t) (year : double)
    : result double :=
  let day := year * (36525 # 100) + day_offset_ f in
  before ← to_size_t (floor day);
  if (before <? data_size file_)%Z then read file_ before
  else if (before >=? (2 * data_size file_) mod size_max)%Z then
    Fail (runtime_error "Invalid after index.")
  else
    x ← read file_ (before mod data_size file_);
    Ok (wrap_around_multiplier_ f * x).

(** [update_amount] reads [year()], which [update_to] has already moved. *)
Definition update_amount (file_ : FileData) (f : t) (b : ModelBase.t)
    (amount dt : double) : result double :=
  after ← lookup file_ f (ModelBase.year b + dt);
  now ← lookup file_ f (ModelBase.year b);
  Ok (after * amount / now).

End MarketFund.

(** ** The funds behind a [FundBase::Ptr] *)

Module Fund.

Inductive t : Type :=
  | fixed_rate (f : FixedRateFund.t)
  | market (f : MarketFund.t).

Definition base (f : t) : FundBase.t :=
  match f with
  | fixed_rate f => FixedRateFund.base f
  | market f => MarketFund.base f
  end.

Definition with_base (f : t) (b : FundBase.t) : t :=
  match f with
  | fixed_rate f => fixed_rate (FixedRateFund.Build b (FixedRateFund.rate_ f))
  | market f =>
      market
        (MarketFund.Build b (MarketFund.wrap_around_multiplier_ f)
           (MarketFund.day_offset_ f))
  end.

Definition amount (f : t) : double := FundBase.amount (base f).

Definition buy (f : t) (amount : double) : result (double * t) :=
  '(x, b) ← FundBase.buy (base f) amount; Ok (x, with_base f b).

Definition sell (f : t) (amount : double) : double * t :=
  let '(x, b) := FundBase.sell (base f) amount in (x, with_base f b).

Definition update_amount (exp : double -> double)
    (file_ : MarketFund.FileData) (f : t)
    : ModelBase.t -> double -> double -> result double :=
  match f with
  | fixed_rate f =>
      fun _ amount dt => Ok (FixedRateFund.update_amount exp f amount dt)
  | market f => MarketFund.update_amount file_ f
  end.

Definition update_to (exp : double -> double)
    (file_ : MarketFund.FileData) (f : t) (year : double)
    : result (double * t) :=
  '(x, b) ← FundBase.update_to (update_amount exp file_ f) (base f) year;
  Ok (x, with_base f b).

Definition set_offset_percent (file_ : MarketFund.FileData) (f : t)
    (percent : double) : t :=
  match f with
  | fixed_rate f => fixed_rate f
  | market f => market (MarketFund.set_offset_percent file_ f percent)
  end.

End Fund.

(** ** Sequences of calls on one fund *)

Module Calls.

Inductive call : Type :=
  | buy (amount : double)
  | sell (amount : double)
  | update_to (year : double).

(** What the log keeps of a [buy]: the calendar year [floor(year())] it
    was made in, what [contributed_] held for that year when it was made,
    the amount offered and the amount returned. *)
Record bought : Type := Bought {
  key : Z;
  before : double;
  offered : double;
  returned : double
}.

(** Runs the calls in order and logs the [buy] calls. *)
Fixpoint run
    (update_amount : ModelBase.t -> double -> double -> result double)
    (f : FundBase.t) (calls : list call)
    : result (list bought * FundBase.t) :=
  match calls with
  | [] => Ok ([], f)
  | buy amount :: rest =>
      '(x, f1) ← FundBase.buy f amount;
      '(log, f2) ← run update_amount f1 rest;
      let k := floor (ModelBase.year (FundBase.base f)) in
      Ok (Bought k (FundBase.contributed f k) amount x :: log, f2)
  | sell amount :: rest =>
      run update_amount (FundBase.sell f amount).2 rest
  | update_to year :: rest =>
      '(_, f1) ← FundBase.update_to update_amount f year;
      run update_amount f1 rest
  end.

(** The running total of calendar year [y]: the amounts returned by the
    logged [buy] calls of that year, added one after the other, in the
    order of the calls, to what the year held, [held].  A [buy] with a
    negative offer returns before it adds anything. *)
Definition running (y : Z) (log : list bought) (held : double) : double :=
  fold_left
    (fun total e =>
       if (key e =? y)%Z && negb (ltb (offered e) 0)
       then total + returned e else total)
    log held.

(** The balance after the logged [buy] calls, in the same way. *)
Definition balance (log : list bought) (amount : double) : double :=
  fold_left
    (fun total e =>
       if ltb (offered e) 0 then total else total + returned e)
    log amount.

End Calls.

(** ** The driver: one run of [main] *)

Module Main.

(** The state of one run: the cloned models and the two flags. *)
Record Run : Type := Build {
  income_models : list Model.t;
  expense_models : list Model.t;
  market_models : list Fund.t;
  bankrupt : bool;
  retirement_value : option double
}.

Definition PERIOD : double := 1 / 52.

(** [for (auto& m : models) { total += m->update_to(year); }] *)
Fixpoint update_all (exp : double -> double) (models : list Model.t)
    (year total : double) : double * list Model.t :=
  match models with
  | [] => (total, [])
  | m :: rest =>
      let '(this, m) := Model.update_to exp m year in
      let '(total, rest) := update_all exp rest year (total + this) in
      (total, m :: rest)
  end.

(** The retirement snapshot: taken once, when income is zero. *)
Definition snapshot (funds : list Fund.t) (value : option double)
    : option double :=
  fold_left (fun v f => Some (default 0 v + Fund.amount f)) funds value.

(** The investing loop: grows and buys into the fund at
    [reverse_i = size - 1 - i]. *)
Definition invest_body (exp : double -> double)
    (file_ : MarketFund.FileData) (year : double) (i : nat)
    (st : list Fund.t * double * list double)
    : result (list Fund.t * double * list double) :=
  let '(funds, to_invest, market_contributed) := st in
  let reverse_i := (length funds - 1 - i)%nat in
  f ← read funds (Z.of_nat reverse_i);
  '(_, f) ← Fund.update_to exp file_ f year;
  '(contributed, f) ← Fund.buy f to_invest;
  let to_invest := to_invest - contributed in
  market_contributed ← store market_contributed reverse_i contributed;
  Ok (<[reverse_i := f]> funds, to_invest, market_contributed).

Definition invest (exp : double -> double) (file_ : MarketFund.FileData)
    (year : double) (funds : list Fund.t) (to_invest : double)
    (market_contributed : list double)
    : result (list Fund.t * double * list double) :=
  for_each (invest_body exp file_ year) (seq 0 (length funds))
    (funds, to_invest, market_contributed).

(** The spending loop: sells from the fund at [i]. *)
Definition spend_body (i : nat) (st : list Fund.t * double)
    : result (list Fund.t * double) :=
  let '(funds, to_spend) := st in
  f ← read funds (Z.of_nat i);
  let '(spend, f) := Fund.sell f to_spend in
  Ok (<[i := f]> funds, to_spend - spend).

Definition spend (funds : list Fund.t) (to_spend : double)
    : result (list Fund.t * double) :=
  for_each spend_body (seq 0 (length funds)) (funds, to_spend).

(** The body of the weekly loop up to the bankruptcy test: the run after
    the cash has moved, and what is left of [to_spend]. *)
Definition cash_flow (exp : double -> double) (file_ : MarketFund.FileData)
    (verbose : bool) (r : Run) (year : double) : result (Run * double) :=
  let '(total_income, incomes) :=
    update_all exp (income_models r) year 0 in
  let value :=
    if eqb total_income 0 && negb (bool_decide (is_Some (retirement_value r)))
    then snapshot (market_models r) (retirement_value r)
    else retirement_value r in
  let '(total_expenses, expenses) :=
    update_all exp (expense_models r) year 0 in
  let to_invest := std_max (total_income - total_expenses) 0 in
  let to_spend := std_max (total_expenses - total_income) 0 in
  let market_contributed :=
    if verbose then replicate (length (market_models r)) 0 else [] in
  '(funds, _, _) ←
    invest exp file_ year (market_models r) to_invest market_contributed;
  '(funds, to_spend) ← spend funds to_spend;
  Ok (Build incomes expenses funds (bankrupt r) value, to_spend).

Definition step (exp : double -> double) (file_ : MarketFund.FileData)
    (verbose : bool) (r : Run) (year : double) : result Run :=
  '(r, to_spend) ← cash_flow exp file_ verbose r year;
  Ok (Build (income_models r) (expense_models r) (market_models r)
        (if gtb to_spend 0 then true else bankrupt r)
        (retirement_value r)).

(** [for (size_t i = 1; i < years / PERIOD; ++i) a = body(i, a);]
    [None] when the fuel runs out before the loop ends. *)
Fixpoint for_weeks {A} (body : Z -> A -> result A) (fuel : nat)
    (years : double) (i : Z) (a : A) : option (result A) :=
  match fuel with
  | O => None
  | S fuel =>
      if ltb (inject_Z i) (years / PERIOD) then
        match body i a with
        | Ok a => for_weeks body fuel years ((i + 1) mod size_max)%Z a
        | Fail f => Some (Fail f)
        end
      else Some (Ok a)
  end.

(** The indices the loop header goes through, in order. *)
Definition week_indices (fuel : nat) (years : double)
    : option (result (list Z)) :=
  for_weeks (fun i done => Ok (done ++ [i])) fuel years 1 [].

(** The clones a run starts from, with the run's offset set. *)
Definition start_run (file_ : MarketFund.FileData)
    (base_income_models base_expense_models : list Model.t)
    (base_market_models : list Fund.t) (percent : double) : Run :=
  Build base_income_models base_expense_models
    (map (fun f => Fund.set_offset_percent file_ f percent)
       base_market_models)
    false None.

(** The weekly loop of one run. *)
Definition simulate (exp : double -> double) (file_ : MarketFund.FileData)
    (verbose : bool) (fuel : nat) (years : double) (r : Run)
    : option (result Run) :=
  for_weeks
    (fun i r => step exp file_ verbose r (inject_Z i * PERIOD))
    fuel years 1 r.

(** The states a run goes through, week after week, from [r]. *)
Fixpoint history (exp : double -> double) (file_ : MarketFund.FileData)
    (verbose : bool) (r : Run) (weeks : list Z) : list Run :=
  match weeks with
  | [] => []
  | i :: rest =>
      match step exp file_ verbose r (inject_Z i * PERIOD) with
      | Ok r => r :: history exp file_ verbose r rest
      | Fail _ => []
      end
  end.

End Main.

(** ** class ArgumentParser ([args.hh])

    The callbacks registered with the parser write into the objects that
    registered them; here they are functions on a state [W].  [std::stod]
    is a parameter.  The map [args_], a [std::map] keyed by name, is a list
    kept in the order of the keys, which is the order [parse] runs the
    callbacks in. *)

Module ArgumentParser.

Inductive Parsed : Type :=
  | parsed_bool (b : bool)
  | parsed_double (d : double).

Inductive exception : Type :=
  | std_runtime_error (what : string)
  | std_bad_variant_access
  | std_out_of_range.

(** How a call ends: it returns; or [help(error)] prints the error and
    the arguments and calls [exit(1)]; or an exception leaves it. *)
Inductive ended (A : Type) : Type :=
  | returned (a : A)
  | exited (error : string)
  | threw (e : exception).
Arguments returned {A} a.
Arguments exited {A} error.
Arguments threw {A} e.

Record Argument (W : Type) : Type := Build {
  callback : Parsed -> W -> ended W;
  description : string;
  is_flag : bool;
  value : option Parsed
}.
Arguments Build {W} callback description is_flag value.
Arguments callback {W} a p w.
Arguments description {W} a.
Arguments is_flag {W} a.
Arguments value {W} a.

(** What [std::stod] does with a token. *)
Inductive conversion : Type :=
  | converted (d : double)
  | invalid_argument
  | out_of_range.

(** [args_.find(name)] *)
Fixpoint find {W} (name : string) (args : list (string * Argument W))
    : option (Argument W) :=
  match args with
  | [] => None
  | (n, a) :: rest => if String.eqb name n then Some a else find name rest
  end.

(** [args_[name] = arg]: a new key goes to its place in the order of the
    keys, a key already there gets the new argument. *)
Fixpoint assign {W} (name : string) (arg : Argument W)
    (args : list (string * Argument W)) : list (string * Argument W) :=
  match args with
  | [] => [(name, arg)]
  | (n, a) :: rest =>
      match String.compare name n with
      | Lt => (name, arg) :: (n, a) :: rest
      | Eq => (name, arg) :: rest
      | Gt => (n, a) :: assign name arg rest
      end
  end.

(** [arg_it->second.value = v] at a key that is there. *)
Fixpoint set_value {W} (name : string) (v : Parsed)
    (args : list (string * Argument W)) : list (string * Argument W) :=
  match args with
  | [] => []
  | (n, a) :: rest =>
      if String.eqb name n
      then (n, Build (callback a) (description a) (is_flag a) (Some v)) :: rest
      else (n, a) :: set_value name v rest
  end.

Definition add_argument {W} (name : string) (arg : Argument W)
    (args : list (string * Argument W))
    : ended (list (string * Argument W)) :=
  match name with
  | EmptyString =>
      threw (std_runtime_error
               (String.append "Invalid argument name '"
                  (String.append name "' must start with '-'")))
  | String c _ =>
      if Ascii.eqb c Ascii.zero then
        threw (std_runtime_error
                 (String.append "Invalid argument name '"
                    (String.append name "' must start with '-'")))
      else returned (assign name arg args)
  end.

(** The argument the constructor registers: [--help] calls [help()]. *)
Definition help_argument {W} : Argument W :=
  Build (fun p w =>
           match p with
           | parsed_bool true => exited ""
           | parsed_bool false => returned w
           | parsed_double _ => threw std_bad_variant_access
           end)
    "Shows this message." true None.

Definition make {W} : ended (list (string * Argument W)) :=
  add_argument "--help" help_argument [].

(** The first loop of [parse], over [argv[1]], [argv[2]], ... *)
Fixpoint scan {W} (stod : string -> conversion) (tokens : list string)
    (args : list (string * Argument W))
    : ended (list (string * Argument W)) :=
  match tokens with
  | [] => returned args
  | arg :: rest =>
      match find arg args with
      | None =>
          exited (String.append "No argument named '"
                    (String.append arg "' was registered."))
      | Some a =>
          if is_flag a then
            scan stod rest (set_value arg (parsed_bool true) args)
          else
            match rest with
            | [] => returned args
            | next :: rest =>
                match stod next with
                | converted d =>
                    scan stod rest (set_value arg (parsed_double d) args)
                | invalid_argument => scan stod rest args
                | out_of_range => threw std_out_of_range
                end
            end
      end
  end.

(** The second loop of [parse]: the callbacks, in the order of the keys. *)
Fixpoint deliver {W} (args : list (string * Argument W)) (w : W)
    : ended W :=
  match args with
  | [] => returned w
  | (name, a) :: rest =>
      let payload :=
        if is_flag a then Some (parsed_bool (bool_decide (is_Some (value a))))
        else value a in
      match payload with
      | None =>
          exited (String.append "Argument '"
                    (String.append name "' is missing argument"))
      | Some p =>
          match callback a p w with
          | returned w => deliver rest w
          | exited error => exited error
          | threw (std_runtime_error what) =>
              exited (String.append "Exception when handling '"
                        (String.append name (String.append "': " what)))
          | threw e => threw e
          end
      end
  end.

Definition parse {W} (stod : string -> conversion) (tokens : list string)
    (args : list (string * Argument W)) (w : W)
    : ended (list (string * Argument W) * W) :=
  match scan stod tokens args with
  | returned args =>
      match deliver args w with
      | returned w => returned (args, w)
      | exited error => exited error
      | threw e => threw e
      end
  | exited error => exited error
  | threw e => threw e
  end.

End ArgumentParser.

(** The first two arguments that [main] registers, after the parser's own
    [--help], writing into the options they capture, and a stand-in for
    [std::stod] that knows three tokens. *)

Module CommandLine.

Record Options : Type := Build {
  years : double;
  verbose : bool
}.

Definition sim_years : ArgumentParser.Argument Options :=
  ArgumentParser.Build
    (fun p o =>
       match p with
       | ArgumentParser.parsed_double d =>
           ArgumentParser.returned (Build d (verbose o))
       | ArgumentParser.parsed_bool _ =>
           ArgumentParser.threw ArgumentParser.std_bad_variant_access
       end)
    "how many simulated years to run." false
    (Some (ArgumentParser.parsed_double 1)).

Definition verbose_flag : ArgumentParser.Argument Options :=
  ArgumentParser.Build
    (fun p o =>
       match p with
       | ArgumentParser.parsed_bool b =>
           ArgumentParser.returned (Build (years o) b)
       | ArgumentParser.parsed_double _ =>
           ArgumentParser.threw ArgumentParser.std_bad_variant_access
       end)
    "show detailed information" true None.

Definition registered : list (string * ArgumentParser.Argument Options) :=
  [("--help"%string, ArgumentParser.help_argument);
   ("--sim-years"%string, sim_years);
   ("--verbose"%string, verbose_flag)].

Definition stod (token : string) : ArgumentParser.conversion :=
  if String.eqb token "2" then ArgumentParser.converted 2
  else if String.eqb token "10" then ArgumentParser.converted 10
  else if String.eqb token "1e999" then ArgumentParser.out_of_range
  else ArgumentParser.invalid_argument.

End CommandLine.

(** ** Successive calls on one model *)

(** [update_to] called once per year of the list, in order, with the
    values the calls return. *)
Fixpoint advance {M} (update_to : M -> double -> double * M) (m : M)
    (years : list double) : list double * M :=
  match years with
  | [] => ([], m)
  | year :: rest =>
      let '(amount, m) := update_to m year in
      let '(amounts, m) := advance update_to m rest in
      (amount :: amounts, m)
  end.

(** The step lengths [dt = year - year()] these calls compute, from the
    cursor [prev]. *)
Fixpoint steps (prev : double) (years : list double) : list double :=
  match years with
  | [] => []
  | year :: rest => (year - prev) :: steps year rest
  end.

(** ** A small configuration

    The models that [main] builds (one job; spending and the three costs;
    the market and retirement funds), with 120 days of flat prices in the
    market file and the run's offset at one half. *)

Module Household.

Definition file_ : list double := replicate 120 1.

Definition fund (name : string) (amount : double) : Fund.t :=
  Fund.market
    (MarketFund.Build
       (FundBase.Build (ModelBase.Build name 0 infinity 0) ∅ 0 amount) 1 0).

Definition job (salary : double) : Model.t :=
  Model.job (Job.Build (ModelBase.Build "job" 0 infinity 0) salary 0).

Definition spending (annual : double) : Model.t :=
  Model.spending
    (Spending.Build (ModelBase.Build "spending" 0 infinity 0) annual 0 true).

Definition no_cost (name : string) : Model.t :=
  Model.cost (Cost.configured name 0 infinity 0 0 0).

Definition expenses (annual : double) : list Model.t :=
  [spending annual; no_cost "child"; no_cost "child2"; no_cost "car"].

(** A salary of 52000 and nothing spent: 1000 to invest each week. *)
Definition surplus : Main.Run :=
  Main.start_run file_ [job 52000] (expenses 0)
    [fund "market" 0; fund "retirement" 0] (1 # 2).

(** No salary and 52000 spent a year: 1000 to withdraw each week. *)
Definition deficit : Main.Run :=
  Main.start_run file_ [job 0] (expenses 52000)
    [fund "market" 5000; fund "retirement" 5000] (1 # 2).

(** Spending above the salary, and empty funds. *)
Definition broke : Main.Run :=
  Main.start_run file_ [job 26000] (expenses 52000)
    [fund "market" 0; fund "retirement" 0] (1 # 2).

End Household.

(** ** The same code on binary64 values

    Where a property turns on how a sum or a difference rounds, it is
    decided on the doubles themselves.  [FundBase::buy] and
    [Cost::update_to] are embedded here a second time, operation for
    operation, on the primitive binary64 numbers, whose [+], [-], [*] and
    [/] round to nearest as the program's do and whose comparisons are
    false on a NaN. *)

Module Float64.

Import Floats.
Local Open Scope float_scope.

Definition std_min (a b : float) : float := if b <? a then b else a.

(** [std::floor] of a finite double, as an integer. *)
Definition floor (x : float) : option Z :=
  match Prim2SF x with
  | S754_zero _ => Some 0%Z
  | S754_finite s m e =>
      let n := if s then Z.neg m else Z.pos m in
      Some (if (0 <=? e)%Z then n * 2 ^ e else n / 2 ^ (- e))%Z
  | _ => None
  end.

(** The real number that a finite double stands for. *)
Definition exact (x : float) : Q :=
  match Prim2SF x with
  | S754_finite s m e =>
      let n := if s then Z.neg m else Z.pos m in
      if (0 <=? e)%Z then inject_Z (n * 2 ^ e)
      else (n # Z.to_pos (2 ^ (- e)))%Q
  | _ => 0%Q
  end.

Module ModelBase.

Record t : Type := Build {
  name_ : string;
  start_ : float;
  duration_ : float;
  year_ : float
}.

Definition year (m : t) : float := year_ m.
Definition start (m : t) : float := start_ m.
Definition end_ (m : t) : float := start m + duration_ m.

Definition set_year (m : t) (year : float) : float * t :=
  (year_ m, Build (name_ m) (start_ m) (duration_ m) year).

End ModelBase.

Module FundBase.

Record t : Type := Build {
  base : ModelBase.t;
  contributed_ : gmap Z float;
  contribution_limit_ : float;
  amount_ : float
}.

Definition contributed (f : t) (k : Z) : float :=
  default 0 (contributed_ f !! k).

Definition buy (f : t) (amount : float) : result (float * t) :=
  if amount <? 0 then Ok (0, f)
  else if 0 <? contribution_limit_ f then
    k ← match floor (ModelBase.year (base f)) with
        | Some z => to_size_t z
        | None => Fail undefined_behaviour
        end;
    let remaining := contribution_limit_ f - contributed f k in
    let amount := std_min amount remaining in
    Ok (amount,
        Build (base f) (<[k := contributed f k + amount]> (contributed_ f))
          (contribution_limit_ f) (amount_ f + amount))
  else
    Ok (amount,
        Build (base f) (contributed_ f) (contribution_limit_ f)
          (amount_ f + amount)).

(** Successive [buy] calls, with the amounts they return. *)
Fixpoint buys (f : t) (amounts : list float) : result (list float * t) :=
  match amounts with
  | [] => Ok ([], f)
  | amount :: rest =>
      '(x, f) ← buy f amount;
      '(xs, f) ← buys f rest;
      Ok (x :: xs, f)
  end.

End FundBase.

Module Cost.

Record t : Type := Build {
  base : ModelBase.t;
  total_ : float;
  remaining_ : float;
  down_ : float;
  close_ : float
}.

Definition update_to (c : t) (year : float) : float * t :=
  let '(prev, b) := ModelBase.set_year (base c) year in
  let dt := year - prev in
  if year <? ModelBase.start b then
    (0, Build b (total_ c) (remaining_ c) (down_ c) (close_ c))
  else if ModelBase.end_ b <? year then
    let amount := remaining_ c + close_ c in
    (amount, Build b (total_ c) 0 (down_ c) 0)
  else if 0 <? down_ c then
    let amount := down_ c in
    (amount,
     Build b (total_ c - down_ c) (remaining_ c - down_ c) 0 (close_ c))
  else
    let amount := dt * total_ c / (ModelBase.end_ b - ModelBase.start b) in
    let amount := std_min (remaining_ c) amount in
    (amount, Build b (total_ c) (remaining_ c - amount) (down_ c) (close_ c)).

Fixpoint advance (c : t) (years : list float) : list float * t :=
  match years with
  | [] => ([], c)
  | year :: rest =>
      let '(amount, c) := update_to c year in
      let '(amounts, c) := advance c rest in
      (amount :: amounts, c)
  end.

Definition configured (name : string) (start duration : float)
    (total down close : float) : t :=
  Build (ModelBase.Build name start duration 0) total total down close.

End Cost.

End Float64.

(** * Properties *)

(** ** Facts about the comparisons *)

Lemma ltb_lt x y : ltb x y = true <-> x < y.
Proof.
  unfold ltb. rewrite negb_true_iff, <- not_true_iff_false, Qle_bool_iff.
  split; [apply Qnot_le_lt | apply Qlt_not_le].
Qed.

Lemma ltb_ge x y : ltb x y = false <-> y <= x.
Proof. unfold ltb. rewrite negb_false_iff. apply Qle_bool_iff. Qed.

Lemma leb_le x y : leb x y = true <-> x <= y.
Proof. apply Qle_bool_iff. Qed.

Lemma leb_gt x y : leb x y = false <-> y < x.
Proof.
  unfold leb. rewrite <- not_true_iff_false, Qle_bool_iff.
  split; [apply Qnot_le_lt | apply Qlt_not_le].
Qed.

Lemma gtb_lt x y : gtb x y = true <-> y < x.
Proof. apply ltb_lt. Qed.

Lemma gtb_le x y : gtb x y = false <-> x <= y.
Proof. apply ltb_ge. Qed.

Lemma geb_le x y : geb x y = true <-> y <= x.
Proof. apply leb_le. Qed.

Lemma geb_lt x y : geb x y = false <-> x < y.
Proof. apply leb_gt. Qed.

Lemma std_min_spec a b :
  (b < a /\ std_min a b = b) \/ (a <= b /\ std_min a b = a).
Proof.
  unfold std_min. destruct (ltb b a) eqn:E.
  - left. split; [now apply ltb_lt | reflexivity].
  - right. split; [now apply ltb_ge | reflexivity].
Qed.

(** Turns the boolean tests in the context into order facts. *)
Ltac order_facts :=
  repeat match goal with
  | H : ltb _ _ = true |- _ => apply ltb_lt in H
  | H : ltb _ _ = false |- _ => apply ltb_ge in H
  | H : leb _ _ = true |- _ => apply leb_le in H
  | H : leb _ _ = false |- _ => apply leb_gt in H
  | H : gtb _ _ = true |- _ => apply gtb_lt in H
  | H : gtb _ _ = false |- _ => apply gtb_le in H
  | H : geb _ _ = true |- _ => apply geb_le in H
  | H : geb _ _ = false |- _ => apply geb_lt in H
  end.

(** ** Cost *)

Lemma cost_past_end (c : Cost.t) (year d : double) :
  ModelBase.duration_ (Cost.base c) = finite d ->
  0 <= d ->
  ModelBase.start_ (Cost.base c) + d < year ->
  Cost.update_to c year =
    (Cost.remaining_ c + Cost.close_ c,
     Cost.Build (ModelBase.set_year (Cost.base c) year).2
       (Cost.total_ c) 0 (Cost.down_ c) 0).
Proof.
  intros Hd Hpos Hyear. unfold Cost.update_to. simpl.
  unfold ModelBase.start, ModelBase.end_, ModelBase.start. simpl.
  rewrite Hd. simpl.
  destruct (ltb year (ModelBase.start_ (Cost.base c))) eqn:E1.
  { order_facts. lra. }
  destruct (gtb year (ModelBase.start_ (Cost.base c) + d)) eqn:E2.
  { reflexivity. }
  order_facts. lra.
Qed.

Lemma cost_advance_app (c : Cost.t) (ys zs : list double) :
  Cost.advance c (ys ++ zs) =
    let '(xs1, c1) := Cost.advance c ys in
    let '(xs2, c2) := Cost.advance c1 zs in
    (xs1 ++ xs2, c2).
Proof.
  revert c. induction ys as [|y ys IH]; intros c; simpl.
  - destruct (Cost.advance c zs). reflexivity.
  - destruct (Cost.update_to c y) as [x c1]. rewrite IH.
    destruct (Cost.advance c1 ys) as [xs1 c2].
    destruct (Cost.advance c2 zs) as [xs2 c3]. reflexivity.
Qed.

Lemma cost_closed_stays (d : double) (later : list double) (c : Cost.t) :
  ModelBase.duration_ (Cost.base c) = finite d ->
  0 <= d ->
  Cost.remaining_ c = 0 ->
  Cost.close_ c = 0 ->
  Forall (fun y => ModelBase.start_ (Cost.base c) + d < y) later ->
  Forall (fun x => x == 0) (Cost.advance c later).1
  /\ Cost.remaining_ (Cost.advance c later).2 = 0
  /\ Cost.close_ (Cost.advance c later).2 = 0.
Proof.
  intros Hd Hpos. revert c Hd.
  induction later as [|y ys IH]; intros c Hd Hr Hc Hall; simpl.
  - auto.
  - apply Forall_cons in Hall as [Hy Hys].
    rewrite (cost_past_end c y d Hd Hpos Hy).
    specialize (IH (Cost.Build (ModelBase.set_year (Cost.base c) y).2
                      (Cost.total_ c) 0 (Cost.down_ c) 0)).
    simpl in IH. specialize (IH Hd eq_refl eq_refl Hys).
    destruct (Cost.advance _ ys) as [xs c2]. simpl in *.
    destruct IH as (Hxs & Hr2 & Hc2). repeat split; try assumption.
    constructor; [rewrite Hr, Hc; reflexivity | assumption].
Qed.

(** C3, as stated, fails when the year equals the window end: the test in
    [Cost::update_to] is [year > end()].  A cost over [0, 1] with 52
    remaining and 7 to close, advanced from year 0 to year 1, pays the
    amortised 52 and keeps its closing cost. *)
Lemma cost_at_end_not_closed :
  let c := Cost.configured "car" 0 (finite 1) 52 0 7 in
  ext_geb 1 (ModelBase.end_ (Cost.base c)) = true
  /\ ~ (Cost.update_to c 1).1 == Cost.remaining_ c + Cost.close_ c
  /\ (Cost.update_to c 1).1 == 52
  /\ Cost.close_ (Cost.update_to c 1).2 == 7.
Proof.
  vm_compute. repeat split; try reflexivity. discriminate.
Qed.

(** C3 (amended): a call to [Cost::update_to] with the year strictly after
    the end of a window of non-negative length returns
    [remaining_ + close_] and sets both to zero; every later call strictly
    after the end returns 0 and leaves them at zero. *)
Theorem cost_closes_after_end (c : Cost.t) (d year : double)
    (later : list double) :
  ModelBase.duration_ (Cost.base c) = finite d ->
  0 <= d ->
  ModelBase.start_ (Cost.base c) + d < year ->
  Forall (fun y => ModelBase.start_ (Cost.base c) + d < y) later ->
  (Cost.update_to c year).1 = Cost.remaining_ c + Cost.close_ c
  /\ Cost.remaining_ (Cost.update_to c year).2 = 0
  /\ Cost.close_ (Cost.update_to c year).2 = 0
  /\ Forall (fun x => x == 0)
       (Cost.advance (Cost.update_to c year).2 later).1
  /\ Cost.remaining_ (Cost.advance (Cost.update_to c year).2 later).2 = 0
  /\ Cost.close_ (Cost.advance (Cost.update_to c year).2 later).2 = 0.
Proof.
  intros Hd Hpos Hyear Hlater.
  rewrite (cost_past_end c year d Hd Hpos Hyear). simpl.
  repeat split; try reflexivity;
    apply (cost_closed_stays d later
             (Cost.Build (ModelBase.set_year (Cost.base c) year).2
                (Cost.total_ c) 0 (Cost.down_ c) 0));
    auto.
Qed.

Lemma cost_closes_after_end_witness :
  let c := Cost.configured "car" 0 (finite 1) 52 0 7 in
  (Cost.update_to c 2).1 = 52 + 7
  /\ Cost.remaining_ (Cost.update_to c 2).2 = 0
  /\ Cost.close_ (Cost.update_to c 2).2 = 0
  /\ Forall (fun x => x == 0)
       (Cost.advance (Cost.update_to c 2).2 [3; 4]).1
  /\ Cost.remaining_ (Cost.advance (Cost.update_to c 2).2 [3; 4]).2 = 0
  /\ Cost.close_ (Cost.advance (Cost.update_to c 2).2 [3; 4]).2 = 0.
Proof.
  intros c.
  apply (cost_closes_after_end c 1 2 [3; 4]).
  - reflexivity.
  - discriminate.
  - reflexivity.
  - repeat constructor.
Defined.

(** Inside its window a cost pays its down payment, if one is due, and
    otherwise the amortised amount for the step. *)
Lemma cost_inside_step (c : Cost.t) (d year : double) :
  ModelBase.duration_ (Cost.base c) = finite d ->
  ModelBase.start_ (Cost.base c) <= year ->
  year <= ModelBase.start_ (Cost.base c) + d ->
  Cost.update_to c year =
    if gtb (Cost.down_ c) 0 then
      (Cost.down_ c,
       Cost.Build (ModelBase.set_year (Cost.base c) year).2
         (Cost.total_ c - Cost.down_ c) (Cost.remaining_ c - Cost.down_ c)
         0 (Cost.close_ c))
    else
      let amount :=
        std_min (Cost.remaining_ c)
          ((year - ModelBase.year_ (Cost.base c)) * Cost.total_ c
           / (ModelBase.start_ (Cost.base c) + d
              - ModelBase.start_ (Cost.base c))) in
      (amount,
       Cost.Build (ModelBase.set_year (Cost.base c) year).2
         (Cost.total_ c) (Cost.remaining_ c - amount) (Cost.down_ c)
         (Cost.close_ c)).
Proof.
  intros Hd Hstart Hend. unfold Cost.update_to.
  cbn [ModelBase.set_year].
  unfold ModelBase.end_, ModelBase.start.
  cbn [ModelBase.start_ ModelBase.duration_ snd]. rewrite Hd.
  cbn [ext_add ext_gtb ext_sub ext_div].
  rewrite (proj2 (ltb_ge _ _) Hstart), (proj2 (gtb_le _ _) Hend).
  cbn [ModelBase.set_year snd]. rewrite Hd. reflexivity.
Qed.

(** With no down payment due, the calls inside the window pay what the
    amortisation of the specification says. *)
Lemma cost_advance_inside (d : double) (years : list double) :
  forall c : Cost.t,
  ModelBase.duration_ (Cost.base c) = finite d ->
  Cost.down_ c <= 0 ->
  Forall (fun y => ModelBase.start_ (Cost.base c) <= y
                   /\ y <= ModelBase.start_ (Cost.base c) + d) years ->
  exists b,
    Cost.advance c years =
      (let rest :=
         Cost.amortise (Cost.total_ c)
           (ModelBase.start_ (Cost.base c) + d
            - ModelBase.start_ (Cost.base c))
           (ModelBase.year_ (Cost.base c)) (Cost.remaining_ c) years in
       (rest.1,
        Cost.Build b (Cost.total_ c) rest.2 (Cost.down_ c) (Cost.close_ c)))
    /\ ModelBase.start_ b = ModelBase.start_ (Cost.base c)
    /\ ModelBase.duration_ b = ModelBase.duration_ (Cost.base c).
Proof.
  induction years as [|y ys IH]; intros c Hd Hdown Hall.
  - exists (Cost.base c). destruct c. repeat split; reflexivity.
  - apply Forall_cons in Hall as [[Hstart Hend] Hall].
    cbn [Cost.advance Cost.amortise].
    rewrite (cost_inside_step c d y Hd Hstart Hend).
    rewrite (proj2 (gtb_le _ _) Hdown). cbv zeta.
    set (amount := std_min _ _).
    set (c1 := Cost.Build _ _ _ _ _).
    destruct (IH c1) as (b & Hrest & Hs & Hw);
      [exact Hd | exact Hdown | exact Hall |].
    exists b. rewrite Hrest. subst c1.
    cbn [Cost.base Cost.total_ Cost.remaining_ Cost.down_ Cost.close_
         ModelBase.set_year snd ModelBase.start_ ModelBase.year_
         ModelBase.duration_] in *.
    destruct (Cost.amortise _ _ y _ ys) as [amounts remains].
    repeat split; assumption.
Qed.

Module CostRounding.
Import Floats.

(** C6, as stated, fails.  The call that pays the down payment amortises
    nothing for its step, so the amortised amounts fall short of
    [total - down] and [remaining_] is not zero when the closing cost is
    paid: a cost of 5200 over the year 0 to 1, with 1000 down and 300 to
    close, advanced to 1/52, 2/52, 1/2 and 1, still has 1050/13 in
    [remaining_], and the call past its end pays 4950/13, not 300.  On the
    program's doubles the five amounts returned do not add up to 5500
    either: the subtractions round. *)
Lemma cost_remaining_paid_at_close :
  let c := Cost.configured "car" 0 (finite 1) 5200 1000 300 in
  let years := [1 # 52; 2 # 52; 1 # 2; 1] in
  let c64 := Float64.Cost.configured "car" 0 1 5200 1000 300 in
  let years64 := [1 * (1 / 52); 2 * (1 / 52); 0.5; 1]%float in
  ~ Cost.remaining_ (Cost.advance c years).2 == 0
  /\ Cost.remaining_ (Cost.advance c years).2 == 1050 # 13
  /\ (Cost.update_to (Cost.advance c years).2 2).1 == 4950 # 13
  /\ PrimFloat.ltb 0
       (Float64.Cost.remaining_ (Float64.Cost.advance c64 years64).2) = true
  /\ PrimFloat.ltb 300
       (Float64.Cost.update_to (Float64.Cost.advance c64 years64).2 2).1
     = true
  /\ 5500 <
       sum (map Float64.exact
              (Float64.Cost.advance c64 (years64 ++ [2%float])).1).
Proof.
  vm_compute. repeat split; try reflexivity. discriminate.
Qed.

End CostRounding.

(** C6 (amended): a cost with a window of positive length, advanced by
    calls inside its window and then by one past its end, pays in stages.
    When a down payment is due the first call returns it, takes it off
    [total_] and [remaining_] and amortises nothing; every other call
    inside the window returns [dt * total_ / (end - start)] capped at
    [remaining_], and takes it off [remaining_]; the call past the end
    returns what is then left of [remaining_] together with [close_], and
    leaves both at zero.  [remaining_] is zero after that call, not
    before it. *)
Theorem cost_pays_in_stages (c : Cost.t) (d first final : double)
    (inside : list double) :
  ModelBase.duration_ (Cost.base c) = finite d ->
  0 < d ->
  Forall (fun y => ModelBase.start_ (Cost.base c) <= y
                   /\ y <= ModelBase.start_ (Cost.base c) + d)
    (first :: inside) ->
  ModelBase.start_ (Cost.base c) + d < final ->
  let span :=
    ModelBase.start_ (Cost.base c) + d - ModelBase.start_ (Cost.base c) in
  let paid := (Cost.advance c (first :: inside ++ [final])).1 in
  let c' := (Cost.advance c (first :: inside ++ [final])).2 in
  (0 < Cost.down_ c ->
   let rest :=
     Cost.amortise (Cost.total_ c - Cost.down_ c) span first
       (Cost.remaining_ c - Cost.down_ c) inside in
   paid = Cost.down_ c :: rest.1 ++ [rest.2 + Cost.close_ c]
   /\ Cost.total_ c' = Cost.total_ c - Cost.down_ c)
  /\ (Cost.down_ c <= 0 ->
      let rest :=
        Cost.amortise (Cost.total_ c) span (ModelBase.year_ (Cost.base c))
          (Cost.remaining_ c) (first :: inside) in
      paid = rest.1 ++ [rest.2 + Cost.close_ c]
      /\ Cost.total_ c' = Cost.total_ c)
  /\ Cost.remaining_ c' = 0
  /\ Cost.close_ c' = 0.
Proof.
  intros Hd Hpos Hall Hfinal span paid c'.
  assert (Hle : 0 <= d) by lra.
  assert (Hclose : forall (b : ModelBase.t) (total left down close : double),
            ModelBase.start_ b = ModelBase.start_ (Cost.base c) ->
            ModelBase.duration_ b = finite d ->
            Cost.advance (Cost.Build b total left down close) [final]
            = ([left + close],
               Cost.Build (ModelBase.set_year b final).2 total 0 down 0)).
  { intros b total left down close Hs Hw. cbn [Cost.advance].
    rewrite (cost_past_end (Cost.Build b total left down close) final d);
      [reflexivity | exact Hw | exact Hle |].
    cbn [Cost.base]. rewrite Hs. exact Hfinal. }
  assert (Hstages :
    (0 < Cost.down_ c ->
     let rest :=
       Cost.amortise (Cost.total_ c - Cost.down_ c) span first
         (Cost.remaining_ c - Cost.down_ c) inside in
     exists b,
       Cost.advance c (first :: inside ++ [final]) =
         (Cost.down_ c :: rest.1 ++ [rest.2 + Cost.close_ c],
          Cost.Build b (Cost.total_ c - Cost.down_ c) 0 0 0))
    /\ (Cost.down_ c <= 0 ->
        let rest :=
          Cost.amortise (Cost.total_ c) span
            (ModelBase.year_ (Cost.base c)) (Cost.remaining_ c)
            (first :: inside) in
        exists b,
          Cost.advance c (first :: inside ++ [final]) =
            (rest.1 ++ [rest.2 + Cost.close_ c],
             Cost.Build b (Cost.total_ c) 0 (Cost.down_ c) 0))).
  { split.
    - intros Hdown rest.
      apply Forall_cons in Hall as [[Hstart Hend] Hall].
      cbn [Cost.advance].
      rewrite (cost_inside_step c d first Hd Hstart Hend).
      rewrite (proj2 (gtb_lt _ _) Hdown). cbv beta iota zeta.
      set (c1 := Cost.Build _ _ _ _ _).
      rewrite cost_advance_app.
      destruct (cost_advance_inside d inside c1) as (b & Hrest & Hs & Hw).
      + exact Hd.
      + cbn [c1 Cost.down_]. lra.
      + exact Hall.
      + rewrite Hrest. cbv beta iota zeta.
        rewrite (Hclose b _ _ _ _ Hs (eq_trans Hw Hd)).
        eexists. reflexivity.
    - intros Hdown rest.
      change (first :: inside ++ [final])
        with ((first :: inside) ++ [final]).
      rewrite cost_advance_app.
      destruct (cost_advance_inside d (first :: inside) c Hd Hdown Hall)
        as (b & Hrest & Hs & Hw).
      rewrite Hrest. cbv beta iota zeta.
      rewrite (Hclose b _ _ _ _ Hs (eq_trans Hw Hd)).
      eexists. reflexivity. }
  destruct Hstages as [Hwith Hwithout]. subst paid c'.
  destruct (Qlt_le_dec 0 (Cost.down_ c)) as [Hdown | Hdown].
  - destruct (Hwith Hdown) as (b & ->).
    cbn [fst snd Cost.total_ Cost.remaining_ Cost.close_].
    split; [intros _; split; reflexivity|].
    split; [intros Hno; exfalso; lra|]. split; reflexivity.
  - destruct (Hwithout Hdown) as (b & ->).
    cbn [fst snd Cost.total_ Cost.remaining_ Cost.close_].
    split; [intros Hyes; exfalso; lra|].
    split; [intros _; split; reflexivity|]. split; reflexivity.
Qed.

Lemma cost_pays_in_stages_witness :
  let c := Cost.configured "car" 0 (finite 1) 5200 1000 300 in
  (Cost.advance c [1 # 52; 2 # 52; 1 # 2; 1; 2]).1
  = 1000
    :: (Cost.amortise (5200 - 1000) (0 + 1 - 0) (1 # 52) (5200 - 1000)
          [2 # 52; 1 # 2; 1]).1
    ++ [(Cost.amortise (5200 - 1000) (0 + 1 - 0) (1 # 52) (5200 - 1000)
           [2 # 52; 1 # 2; 1]).2 + 300].
Proof.
  intros c.
  destruct (cost_pays_in_stages c 1 (1 # 52) 2 [2 # 52; 1 # 2; 1])
    as ((Hpaid & _) & _).
  - reflexivity.
  - reflexivity.
  - repeat constructor; discriminate.
  - reflexivity.
  - reflexivity.
  - exact Hpaid.
Defined.

(** ** FundBase: sell and buy *)

(** C7: [sell] returns 0 and changes nothing when the fund is not yet
    active or the amount is negative; otherwise it returns the smaller of
    the request and the balance, takes exactly that off the balance, and
    leaves a balance that is not negative. *)
Theorem sell_clamps_to_balance (f : FundBase.t) (amount : double) :
  (ModelBase.year (FundBase.base f) < ModelBase.start (FundBase.base f)
     \/ amount < 0 ->
   FundBase.sell f amount = (0, f))
  /\ (ModelBase.start (FundBase.base f) <= ModelBase.year (FundBase.base f) ->
      0 <= amount ->
      (FundBase.sell f amount).1 == Qmin amount (FundBase.amount_ f)
      /\ FundBase.amount_ (FundBase.sell f amount).2
           == FundBase.amount_ f - (FundBase.sell f amount).1
      /\ 0 <= FundBase.amount_ (FundBase.sell f amount).2
      /\ FundBase.base (FundBase.sell f amount).2 = FundBase.base f
      /\ FundBase.contributed_ (FundBase.sell f amount).2
           = FundBase.contributed_ f
      /\ FundBase.contribution_limit_ (FundBase.sell f amount).2
           = FundBase.contribution_limit_ f).
Proof.
  unfold FundBase.sell. split.
  - intros [H | H].
    + rewrite (proj2 (ltb_lt _ _) H). reflexivity.
    + rewrite (proj2 (ltb_lt _ _) H).
      destruct (ltb _ _); reflexivity.
  - intros Hactive Hamount.
    rewrite (proj2 (ltb_ge _ _) Hactive), (proj2 (ltb_ge _ _) Hamount).
    destruct (geb (FundBase.amount_ f) amount) eqn:E; order_facts; simpl.
    + repeat split; try reflexivity; try lra.
      symmetry. apply Q.min_l. exact E.
    + repeat split; try reflexivity; try lra.
      symmetry. apply Q.min_r. lra.
Qed.

Lemma sell_clamps_to_balance_witness :
  let f := FundBase.Build (ModelBase.Build "market" 0 infinity 1) ∅ 0 100 in
  (FundBase.sell f 250).1 == Qmin 250 100
  /\ FundBase.amount_ (FundBase.sell f 250).2
       == 100 - (FundBase.sell f 250).1
  /\ 0 <= FundBase.amount_ (FundBase.sell f 250).2.
Proof.
  intros f.
  destruct (sell_clamps_to_balance f 250) as [_ H].
  destruct H as (H1 & H2 & H3 & _).
  - discriminate.
  - discriminate.
  - exact (conj H1 (conj H2 H3)).
Defined.

(** C10: [buy] has no test on the activation window.  For a non-negative
    amount it absorbs the whole amount when no limit is set, and the
    amount capped by what is left of the year's limit otherwise, and adds
    it to the balance, whatever [start_], [duration_] and the year are;
    [sell] on the same fund returns 0 while the year is before [start_]. *)
Theorem buy_ignores_window (f : FundBase.t) (amount : double) :
  0 <= amount ->
  (FundBase.contribution_limit_ f <= 0 ->
   FundBase.buy f amount =
     Ok (amount,
         FundBase.Build (FundBase.base f) (FundBase.contributed_ f)
           (FundBase.contribution_limit_ f) (FundBase.amount_ f + amount)))
  /\ (0 < FundBase.contribution_limit_ f ->
      forall k, to_size_t (floor (ModelBase.year (FundBase.base f))) = Ok k ->
      let absorbed :=
        std_min amount
          (FundBase.contribution_limit_ f - FundBase.contributed f k) in
      FundBase.buy f amount =
        Ok (absorbed,
            FundBase.Build (FundBase.base f)
              (<[k := FundBase.contributed f k + absorbed]>
                 (FundBase.contributed_ f))
              (FundBase.contribution_limit_ f)
              (FundBase.amount_ f + absorbed)))
  /\ (ModelBase.year (FundBase.base f) < ModelBase.start (FundBase.base f) ->
      FundBase.sell f amount = (0, f)).
Proof.
  intros Hamount.
  unfold FundBase.buy. rewrite (proj2 (ltb_ge _ _) Hamount). repeat split.
  - intros Hlimit. rewrite (proj2 (gtb_le _ _) Hlimit). reflexivity.
  - intros Hlimit k Hk. rewrite (proj2 (gtb_lt _ _) Hlimit), Hk.
    reflexivity.
  - intros Hyear. unfold FundBase.sell.
    rewrite (proj2 (ltb_lt _ _) Hyear). reflexivity.
Qed.

(** A fund that becomes active in year 30, bought into and sold from in
    year 1. *)
Lemma buy_ignores_window_witness :
  let f :=
    FundBase.Build (ModelBase.Build "retirement" 30 (finite 10) 1) ∅ 0 0 in
  FundBase.buy f 500 =
    Ok (500, FundBase.Build (ModelBase.Build "retirement" 30 (finite 10) 1)
               ∅ 0 (0 + 500))
  /\ FundBase.sell f 500 = (0, f).
Proof.
  intros f.
  destruct (buy_ignores_window f 500) as (Hbuy & _ & Hsell).
  - discriminate.
  - split.
    + apply Hbuy. discriminate.
    + apply Hsell. reflexivity.
Defined.

(** ** MarketFund: lookup *)

Lemma to_size_t_in_range (z : Z) :
  (0 <= z < size_max)%Z -> to_size_t z = Ok z.
Proof.
  intros [H0 H1]. unfold to_size_t.
  rewrite (proj2 (Z.leb_le _ _) H0), (proj2 (Z.ltb_lt _ _) H1). reflexivity.
Qed.

Lemma read_in_range {A} (v : list A) (i : Z) :
  (0 <= i < Z.of_nat (length v))%Z ->
  exists x, v !! Z.to_nat i = Some x /\ read v i = Ok x.
Proof.
  intros [H0 H1].
  destruct (lookup_lt_is_Some_2 v (Z.to_nat i)) as [x Hx]; [lia|].
  exists x. split; [exact Hx|]. unfold read. rewrite Hx.
  rewrite (proj2 (Z.leb_le _ _) H0). reflexivity.
Qed.

Lemma read_out_of_range {A} (v : list A) (i : Z) :
  (Z.of_nat (length v) <= i)%Z -> read v i = Fail undefined_behaviour.
Proof.
  intros H. unfold read.
  rewrite (lookup_ge_None_2 v (Z.to_nat i)) by lia. reflexivity.
Qed.

(** C4: with [before] the day index of the query, [lookup] returns
    [data[before]] below the sample count, the wrap-around multiplier
    times [data[before % size]] from there up to twice the sample count,
    and throws exactly when [before] is at least twice the sample count.
    The multiplier of a constructed fund is [data[size - 1] / data[0]].
    The day index is taken non-negative and below 2^64, where its
    conversion to [size_t] is defined. *)
Theorem lookup_cases (file_ : list double) (f : MarketFund.t)
    (year : double) :
  let before := floor (year * (36525 # 100) + MarketFund.day_offset_ f) in
  let size := MarketFund.data_size file_ in
  (0 <= before < size_max)%Z ->
  (2 * size < size_max)%Z ->
  ((before < size)%Z ->
   exists x, file_ !! Z.to_nat before = Some x
             /\ MarketFund.lookup file_ f year = Ok x)
  /\ ((size <= before < 2 * size)%Z ->
      exists x, file_ !! Z.to_nat (before mod size) = Some x
                /\ MarketFund.lookup file_ f year =
                     Ok (MarketFund.wrap_around_multiplier_ f * x))
  /\ ((exists e, MarketFund.lookup file_ f year = Fail e)
      <-> (2 * size <= before)%Z)
  /\ ((2 * size <= before)%Z ->
      MarketFund.lookup file_ f year =
        Fail (runtime_error "Invalid after index."))
  /\ (forall b g percent,
      MarketFund.make file_ b = Ok g ->
      exists first last,
        file_ !! 0%nat = Some first
        /\ file_ !! (length file_ - 1)%nat = Some last
        /\ MarketFund.wrap_around_multiplier_
             (MarketFund.set_offset_percent file_ g percent)
           = last / first).
Proof.
  intros before size Hbefore Hsize.
  assert (Hsz : (0 <= size)%Z) by (unfold size, MarketFund.data_size; lia).
  assert (Hlow : (before < size)%Z ->
            exists x, file_ !! Z.to_nat before = Some x
                      /\ MarketFund.lookup file_ f year = Ok x).
  { intros Hlt. unfold MarketFund.lookup. fold before.
    rewrite (to_size_t_in_range before Hbefore). simpl.
    fold size. rewrite (proj2 (Z.ltb_lt _ _) Hlt).
    apply read_in_range. unfold size, MarketFund.data_size in Hlt. lia. }
  assert (Hmid : (size <= before < 2 * size)%Z ->
            exists x, file_ !! Z.to_nat (before mod size) = Some x
                      /\ MarketFund.lookup file_ f year =
                           Ok (MarketFund.wrap_around_multiplier_ f * x)).
  { intros [Hge Hlt]. unfold MarketFund.lookup. fold before.
    rewrite (to_size_t_in_range before Hbefore). simpl.
    fold size. rewrite (proj2 (Z.ltb_ge _ _) Hge).
    rewrite (Z.mod_small (2 * size) size_max) by lia.
    assert (Hnot : (before >=? 2 * size)%Z = false)
      by (rewrite Z.geb_leb; apply Z.leb_gt; lia).
    rewrite Hnot.
    destruct (read_in_range file_ (before mod size)) as (x & Hx & Hr).
    { fold (MarketFund.data_size file_). fold size.
      apply Z.mod_pos_bound. lia. }
    exists x. split; [exact Hx|]. rewrite Hr. reflexivity. }
  assert (Hhigh : (2 * size <= before)%Z ->
            MarketFund.lookup file_ f year =
              Fail (runtime_error "Invalid after index.")).
  { intros Hge. unfold MarketFund.lookup. fold before.
    rewrite (to_size_t_in_range before Hbefore). simpl.
    fold size.
    assert (Hnlt : (before <? size)%Z = false) by (apply Z.ltb_ge; lia).
    rewrite Hnlt.
    rewrite (Z.mod_small (2 * size) size_max) by lia.
    assert (Hyes : (before >=? 2 * size)%Z = true)
      by (rewrite Z.geb_leb; apply Z.leb_le; lia).
    rewrite Hyes. reflexivity. }
  repeat split; try assumption.
  - intros [e He].
    destruct (Z.le_gt_cases (2 * size) before) as [|Hlt]; [assumption|].
    destruct (Z.lt_ge_cases before size) as [Hl | Hg].
    + destruct (Hlow Hl) as (x & _ & Hx). congruence.
    + destruct (Hmid (conj Hg Hlt)) as (x & _ & Hx). congruence.
  - intros Hge. eexists. apply Hhigh. exact Hge.
  - intros b g percent Hmake.
    unfold MarketFund.make, MarketFund.wrap_around_multiplier in Hmake.
    fold size in Hmake.
    destruct (Z.eq_dec size 0%Z) as [Hz | Hnz].
    { exfalso.
      rewrite (read_out_of_range file_ ((size - 1) mod size_max)%Z) in Hmake.
      - discriminate Hmake.
      - fold (MarketFund.data_size file_). fold size. rewrite Hz.
        vm_compute. discriminate. }
    rewrite (Z.mod_small (size - 1) size_max) in Hmake by lia.
    destruct (read_in_range file_ (size - 1)%Z) as (last & Hlast & Hrl).
    { fold (MarketFund.data_size file_). fold size. lia. }
    destruct (read_in_range file_ 0%Z) as (first & Hfirst & Hrf).
    { fold (MarketFund.data_size file_). fold size. lia. }
    rewrite Hrl, Hrf in Hmake. simpl in Hmake.
    injection Hmake as <-. simpl.
    exists first, last. repeat split; try assumption.
    replace (length file_ - 1)%nat with (Z.to_nat (size - 1)); [assumption|].
    unfold size, MarketFund.data_size. lia.
Qed.

Lemma lookup_cases_witness :
  let file_ := [10; 11; 12; 20] in
  let f :=
    MarketFund.Build
      (FundBase.Build (ModelBase.Build "market" 0 infinity 0) ∅ 0 100) 2 0 in
  exists x, file_ !! Z.to_nat (5 mod 4) = Some x
            /\ MarketFund.lookup file_ f (20 # 1461) = Ok (2 * x).
Proof.
  intros file_ f.
  destruct (lookup_cases file_ f (20 # 1461)) as (_ & Hmid & _).
  - vm_compute. split; [discriminate | reflexivity].
  - vm_compute. reflexivity.
  - apply Hmid. vm_compute. split; [discriminate | reflexivity].
Defined.

(** ** The yearly contribution limit *)

Section Limit.

Variable update_amount : ModelBase.t -> double -> double -> result double.

(** [within_limit f]: no calendar year holds more than the limit. *)
Local Abbreviation within_limit f :=
  (forall k, FundBase.contributed f k <= FundBase.contribution_limit_ f).

Lemma buy_contributed (f f1 : FundBase.t) (amount x : double) :
  0 < FundBase.contribution_limit_ f ->
  within_limit f ->
  FundBase.buy f amount = Ok (x, f1) ->
  FundBase.contribution_limit_ f1 = FundBase.contribution_limit_ f
  /\ within_limit f1
  /\ forall y,
       FundBase.contributed f1 y
       == FundBase.contributed f y
          + (if (floor (ModelBase.year (FundBase.base f)) =? y)%Z
             then x else 0).
Proof.
  intros Hlimit Hinv. unfold FundBase.buy.
  destruct (ltb amount 0) eqn:Hneg.
  { intros [= <- <-]. repeat split; try assumption.
    intros y. destruct (_ =? y)%Z; ring. }
  rewrite (proj2 (gtb_lt _ _) Hlimit).
  destruct (to_size_t _) as [k|e] eqn:Hk; [|discriminate]. simpl.
  assert (Hkey : k = floor (ModelBase.year (FundBase.base f))).
  { unfold to_size_t in Hk. destruct (_ && _); congruence. }
  intros [= <- <-]. simpl. order_facts.
  set (rest := FundBase.contribution_limit_ f - FundBase.contributed f k).
  assert (Hmin : std_min amount rest <= rest).
  { destruct (std_min_spec amount rest) as [[? ->] | [? ->]]; lra. }
  assert (Hat : forall y,
            FundBase.contributed
              (FundBase.Build (FundBase.base f)
                 (<[k := FundBase.contributed f k + std_min amount rest]>
                    (FundBase.contributed_ f))
                 (FundBase.contribution_limit_ f)
                 (FundBase.amount_ f + std_min amount rest)) y
            = if (k =? y)%Z
              then FundBase.contributed f k + std_min amount rest
              else FundBase.contributed f y).
  { intros y. unfold FundBase.contributed at 1. simpl.
    destruct (k =? y)%Z eqn:E.
    - apply Z.eqb_eq in E. subst y. rewrite lookup_insert_eq. reflexivity.
    - apply Z.eqb_neq in E. rewrite lookup_insert_ne by exact E.
      reflexivity. }
  repeat split.
  - intros y. rewrite Hat. simpl. destruct (k =? y)%Z.
    + subst rest. lra.
    + apply Hinv.
  - intros y. rewrite Hat. rewrite <- Hkey.
    destruct (k =? y)%Z eqn:E.
    + apply Z.eqb_eq in E. subst y. reflexivity.
    + ring.
Qed.

Lemma sell_keeps_contributed (f : FundBase.t) (amount : double) :
  FundBase.contributed_ (FundBase.sell f amount).2 = FundBase.contributed_ f
  /\ FundBase.contribution_limit_ (FundBase.sell f amount).2
     = FundBase.contribution_limit_ f.
Proof.
  unfold FundBase.sell.
  repeat match goal with
  | |- context [if ?b then _ else _] => destruct b
  end; split; reflexivity.
Qed.

Lemma buy_balance (f f1 : FundBase.t) (amount x : double) :
  FundBase.buy f amount = Ok (x, f1) ->
  FundBase.amount_ f1 == FundBase.amount_ f + x.
Proof.
  unfold FundBase.buy.
  destruct (ltb amount 0); [intros [= <- <-]; ring|].
  destruct (gtb (FundBase.contribution_limit_ f) 0).
  - destruct (to_size_t _) as [k|e]; [|discriminate]. simpl.
    intros [= <- <-]. reflexivity.
  - intros [= <- <-]. reflexivity.
Qed.

(** What one [buy] on a fund with a limit returns and leaves. *)
Lemma buy_logged (f f1 : FundBase.t) (amount x : double) :
  0 < FundBase.contribution_limit_ f ->
  FundBase.buy f amount = Ok (x, f1) ->
  let k := floor (ModelBase.year (FundBase.base f)) in
  FundBase.contribution_limit_ f1 = FundBase.contribution_limit_ f
  /\ (forall y,
        FundBase.contributed f1 y
        = if (k =? y)%Z && negb (ltb amount 0)
          then FundBase.contributed f y + x
          else FundBase.contributed f y)
  /\ x = if ltb amount 0 then 0
         else std_min amount
                (FundBase.contribution_limit_ f - FundBase.contributed f k).
Proof.
  intros Hlimit Hbuy k. unfold FundBase.buy in Hbuy.
  destruct (ltb amount 0) eqn:Hneg.
  { injection Hbuy as <- <-. split; [reflexivity|]. split; [|reflexivity].
    intros y. cbn [negb]. rewrite andb_false_r. reflexivity. }
  rewrite (proj2 (gtb_lt _ _) Hlimit) in Hbuy.
  destruct (to_size_t _) as [k'|e] eqn:Hk; [|discriminate].
  cbn [mbind result_bind] in Hbuy.
  assert (Hkey : k' = k).
  { unfold k. unfold to_size_t in Hk. destruct (_ && _); congruence. }
  subst k'. injection Hbuy as <- <-.
  cbn [FundBase.contribution_limit_].
  split; [reflexivity|]. split; [|reflexivity].
  intros y. cbn [negb]. rewrite andb_true_r.
  unfold FundBase.contributed at 1. cbn [FundBase.contributed_].
  destruct (k =? y)%Z eqn:E.
  - apply Z.eqb_eq in E. subst y. rewrite lookup_insert_eq. reflexivity.
  - apply Z.eqb_neq in E. rewrite lookup_insert_ne by exact E. reflexivity.
Qed.

Lemma buy_amount (f f1 : FundBase.t) (amount x : double) :
  FundBase.buy f amount = Ok (x, f1) ->
  FundBase.amount_ f1
  = if ltb amount 0 then FundBase.amount_ f else FundBase.amount_ f + x.
Proof.
  unfold FundBase.buy.
  destruct (ltb amount 0); [intros [= <- <-]; reflexivity|].
  destruct (gtb (FundBase.contribution_limit_ f) 0).
  - destruct (to_size_t _) as [k|e]; [|discriminate].
    cbn [mbind result_bind]. intros [= <- <-]. reflexivity.
  - intros [= <- <-]. reflexivity.
Qed.

(** [contributed_] changes at the [buy] calls only, each adding what it
    returns to the total of its year; what a [buy] finds there is the
    running total of the calls before it. *)
Lemma run_logged (calls : list Calls.call) :
  forall (f f' : FundBase.t) (log : list Calls.bought),
  0 < FundBase.contribution_limit_ f ->
  Calls.run update_amount f calls = Ok (log, f') ->
  (forall y,
     FundBase.contributed f' y
     = Calls.running y log (FundBase.contributed f y))
  /\ (forall pre e post, log = pre ++ e :: post ->
      Calls.before e
      = Calls.running (Calls.key e) pre
          (FundBase.contributed f (Calls.key e))
      /\ Calls.returned e
         = if ltb (Calls.offered e) 0 then 0
           else std_min (Calls.offered e)
                  (FundBase.contribution_limit_ f - Calls.before e)).
Proof.
  induction calls as [|c rest IH]; intros f f' log Hlimit Hrun.
  - injection Hrun as <- <-. split; [reflexivity|].
    intros [|? ?] e post Hlog; discriminate Hlog.
  - destruct c as [amount | amount | year]; cbn [Calls.run] in Hrun.
    + destruct (FundBase.buy f amount) as [[x f1]|e0] eqn:Hbuy;
        [|discriminate].
      cbn [mbind result_bind] in Hrun.
      destruct (Calls.run update_amount f1 rest) as [[log1 f2]|e0] eqn:Hrest;
        [|discriminate].
      cbn [mbind result_bind] in Hrun. cbv zeta in Hrun.
      injection Hrun as <- <-.
      destruct (buy_logged f f1 amount x Hlimit Hbuy) as (Hl1 & Hc1 & Hx).
      rewrite <- Hl1 in Hlimit.
      destruct (IH f1 f2 log1 Hlimit Hrest) as [Hheld Hlog1].
      split.
      * intros y. rewrite Hheld, Hc1. reflexivity.
      * intros [|e1 pre] e post Hlog.
        -- injection Hlog as <- _. split; [reflexivity | exact Hx].
        -- injection Hlog as <- Hlog.
           destruct (Hlog1 pre e post Hlog) as [Hbefore Hreturned].
           rewrite Hl1 in Hreturned. split; [|exact Hreturned].
           rewrite Hbefore, Hc1. reflexivity.
    + destruct (sell_keeps_contributed f amount) as [Hc Hl].
      rewrite <- Hl in Hlimit.
      destruct (IH _ f' log Hlimit Hrun) as [Hheld Hlog].
      unfold FundBase.contributed in *. rewrite Hc, Hl in *.
      split; assumption.
    + unfold FundBase.update_to in Hrun. cbn [ModelBase.set_year] in Hrun.
      destruct (update_amount _ _ _) as [a|e0]; [|discriminate].
      cbn [mbind result_bind] in Hrun.
      eapply IH in Hrun; [exact Hrun | exact Hlimit].
Qed.

Lemma run_within_limit (calls : list Calls.call) :
  forall (f f' : FundBase.t) (log : list Calls.bought),
  0 < FundBase.contribution_limit_ f ->
  within_limit f ->
  Calls.run update_amount f calls = Ok (log, f') ->
  FundBase.contribution_limit_ f' = FundBase.contribution_limit_ f
  /\ within_limit f'.
Proof.
  induction calls as [|c rest IH]; intros f f' log Hlimit Hinv Hrun.
  - injection Hrun as <- <-. split; [reflexivity | exact Hinv].
  - destruct c as [amount | amount | year]; cbn [Calls.run] in Hrun.
    + destruct (FundBase.buy f amount) as [[x f1]|e0] eqn:Hbuy;
        [|discriminate].
      cbn [mbind result_bind] in Hrun.
      destruct (Calls.run update_amount f1 rest) as [[log1 f2]|e0] eqn:Hrest;
        [|discriminate].
      cbn [mbind result_bind] in Hrun. cbv zeta in Hrun.
      injection Hrun as <- <-.
      destruct (buy_contributed f f1 amount x Hlimit Hinv Hbuy)
        as (Hl1 & Hinv1 & _).
      rewrite <- Hl1 in Hlimit.
      destruct (IH f1 f2 log1 Hlimit Hinv1 Hrest) as [Hl2 Hinv2].
      split; [congruence | exact Hinv2].
    + destruct (sell_keeps_contributed f amount) as [Hc Hl].
      destruct (IH (FundBase.sell f amount).2 f' log) as [Hl2 Hinv2].
      * rewrite Hl. exact Hlimit.
      * intros k. unfold FundBase.contributed. rewrite Hc, Hl. apply Hinv.
      * exact Hrun.
      * split; [congruence | exact Hinv2].
    + unfold FundBase.update_to in Hrun. cbn [ModelBase.set_year] in Hrun.
      destruct (update_amount _ _ _) as [a|e0]; [|discriminate].
      cbn [mbind result_bind] in Hrun.
      eapply IH in Hrun; [exact Hrun | exact Hlimit | exact Hinv].
Qed.

Lemma buys_balance (calls : list Calls.call) :
  forall (f f' : FundBase.t) (log : list Calls.bought),
  Forall (fun c => exists amount, c = Calls.buy amount) calls ->
  Calls.run update_amount f calls = Ok (log, f') ->
  FundBase.amount_ f' = Calls.balance log (FundBase.amount_ f).
Proof.
  induction calls as [|c rest IH]; intros f f' log Hbuys Hrun.
  - injection Hrun as <- <-. reflexivity.
  - apply Forall_cons in Hbuys as [[amount ->] Hrest]. cbn [Calls.run] in Hrun.
    destruct (FundBase.buy f amount) as [[x f1]|e] eqn:Hbuy; [|discriminate].
    cbn [mbind result_bind] in Hrun.
    destruct (Calls.run update_amount f1 rest) as [[log1 f2]|e] eqn:Hrun1;
      [|discriminate].
    cbn [mbind result_bind] in Hrun. cbv zeta in Hrun.
    injection Hrun as <- <-.
    rewrite (IH f1 f2 log1 Hrest Hrun1), (buy_amount f f1 amount x Hbuy).
    reflexivity.
Qed.

End Limit.

Module LimitRounding.
Import Floats.
#[local] Set Warnings "-inexact-float".

(** C5, as stated, fails on the program's doubles.  A fund in year 0.5
    with a limit of 0.11 is offered 0.04 and then 1.  The first [buy]
    returns 0.04; the second returns the room left, [0.11 - 0.04], which
    rounds to 0.07000000000000001.  The two amounts returned add up to
    more than the limit, as real numbers and as a double sum, and
    [contributed_] for the year is left at 0.11000000000000001.  A third
    [buy] then returns a negative amount. *)
Lemma limit_exceeded_by_rounding :
  let f :=
    Float64.FundBase.Build
      (Float64.ModelBase.Build "retirement" 0 PrimFloat.infinity 0.5)
      ∅ 0.11 0 in
  exists x1 x2 f2 x3 f3,
    Float64.FundBase.buys f [0.04; 1]%float = Ok ([x1; x2], f2)
    /\ Float64.exact 0.11 < Float64.exact x1 + Float64.exact x2
    /\ PrimFloat.ltb 0.11 (x1 + x2) = true
    /\ PrimFloat.ltb 0.11 (Float64.FundBase.contributed f2 0) = true
    /\ Float64.FundBase.amount_ f2 = (x1 + x2)%float
    /\ Float64.FundBase.buy f2 1 = Ok (x3, f3)
    /\ PrimFloat.ltb x3 0 = true.
Proof.
  intros f. do 5 eexists.
  split; [vm_compute; reflexivity|].
  split; [vm_compute; reflexivity|].
  split; [vm_compute; reflexivity|].
  split; [vm_compute; reflexivity|].
  split; [vm_compute; reflexivity|].
  split; [vm_compute; reflexivity|].
  vm_compute; reflexivity.
Qed.

End LimitRounding.

(** C5 (amended): on a fund with a positive contribution limit, whatever
    calls to [buy], [sell] and [update_to] are made, every [buy] with an
    offer that is not negative returns the smaller of the offer and the
    room left, [limit - contributed_[year]], where [contributed_[year]]
    is the running total of what the earlier [buy] calls of that
    calendar year returned, each added in turn; so a [buy] never returns
    more than the room it finds, returns nothing when the running total
    equals the limit, and nothing negative while the running total is
    within the limit.  The running total is the sum the program keeps,
    with its roundings.  When the limit, the totals held at the start and
    the offers are whole numbers, which the program adds and subtracts
    without rounding, the running total of a calendar year never exceeds
    the limit.  Over [buy] calls alone the balance grows by the amounts
    returned, added in turn. *)
Theorem buys_take_the_room_left
    (update_amount : ModelBase.t -> double -> double -> result double)
    (f f' : FundBase.t) (calls : list Calls.call) (log : list Calls.bought) :
  0 < FundBase.contribution_limit_ f ->
  Calls.run update_amount f calls = Ok (log, f') ->
  (forall pre e post, log = pre ++ e :: post ->
     Calls.before e
     = Calls.running (Calls.key e) pre (FundBase.contributed f (Calls.key e))
     /\ (Calls.offered e < 0 -> Calls.returned e = 0)
     /\ (0 <= Calls.offered e ->
         Calls.returned e
         = std_min (Calls.offered e)
             (FundBase.contribution_limit_ f - Calls.before e)
         /\ Calls.returned e <= Calls.offered e
         /\ Calls.returned e
            <= FundBase.contribution_limit_ f - Calls.before e
         /\ (Calls.before e <= FundBase.contribution_limit_ f ->
             0 <= Calls.returned e)
         /\ (Calls.before e == FundBase.contribution_limit_ f ->
             Calls.returned e == 0)))
  /\ (forall y,
        FundBase.contributed f' y
        = Calls.running y log (FundBase.contributed f y))
  /\ (whole (FundBase.contribution_limit_ f) ->
      (forall k,
         whole (FundBase.contributed f k)
         /\ 0 <= FundBase.contributed f k <= FundBase.contribution_limit_ f) ->
      Forall (fun c => forall amount, c = Calls.buy amount -> whole amount)
        calls ->
      forall y,
        Calls.running y log (FundBase.contributed f y)
        <= FundBase.contribution_limit_ f)
  /\ (Forall (fun c => exists amount, c = Calls.buy amount) calls ->
      FundBase.amount_ f' = Calls.balance log (FundBase.amount_ f)).
Proof.
  intros Hlimit Hrun.
  destruct (run_logged update_amount calls f f' log Hlimit Hrun)
    as [Hheld Hlog].
  split; [|split; [exact Hheld|split]].
  - intros pre e post Hsplit.
    destruct (Hlog pre e post Hsplit) as [Hbefore Hreturned].
    split; [exact Hbefore|]. split.
    + intros Hneg. rewrite Hreturned, (proj2 (ltb_lt _ _) Hneg).
      reflexivity.
    + intros Hoffer. rewrite (proj2 (ltb_ge _ _) Hoffer) in Hreturned.
      split; [exact Hreturned|]. rewrite Hreturned.
      destruct (std_min_spec (Calls.offered e)
                  (FundBase.contribution_limit_ f - Calls.before e))
        as [[Hlt ->] | [Hle ->]]; repeat split; intros; lra.
  - intros _ Hstart _ y. rewrite <- Hheld.
    destruct (run_within_limit update_amount calls f f' log Hlimit)
      as [Hsame Hwithin]; [intros k; apply Hstart | exact Hrun |].
    rewrite <- Hsame. apply Hwithin.
  - intros Hbuys.
    exact (buys_balance update_amount calls f f' log Hbuys Hrun).
Qed.

Lemma buys_take_the_room_left_witness :
  let f :=
    FundBase.Build (ModelBase.Build "retirement" 0 infinity (1 # 2)) ∅ 100 0 in
  let calls :=
    [Calls.buy 60; Calls.update_to (3 # 4); Calls.buy 70; Calls.sell 10;
     Calls.buy (-3); Calls.buy 5] in
  exists log f',
    Calls.run (fun _ amount _ => Ok amount) f calls = Ok (log, f')
    /\ FundBase.contributed f' 0
       = Calls.running 0 log (FundBase.contributed f 0)
    /\ Calls.running 0 log (FundBase.contributed f 0) <= 100.
Proof.
  intros f calls.
  assert (Hrun : exists log f',
            Calls.run (fun _ amount _ => Ok amount) f calls = Ok (log, f'))
    by (vm_compute; eauto).
  destruct Hrun as (log & f' & Hrun).
  exists log, f'. split; [exact Hrun|].
  destruct (buys_take_the_room_left (fun _ amount _ => Ok amount)
              f f' calls log) as (_ & Hheld & Hwhole & _).
  - reflexivity.
  - exact Hrun.
  - split; [apply Hheld|]. apply Hwhole.
    + exists 100%Z. split; [reflexivity | vm_compute; discriminate].
    + intros k. unfold FundBase.contributed. simpl. rewrite lookup_empty.
      split; [|split; discriminate].
      exists 0%Z. split; [reflexivity | vm_compute; discriminate].
    + repeat constructor; intros amount Hcall; try discriminate Hcall;
        injection Hcall as <-;
        match goal with |- whole ?q => exists (Qnum q) end;
        (split; [reflexivity | vm_compute; discriminate]).
Defined.

(** ** The base dispatch of income and expense models *)

(** C8, as stated, fails for a [Cost], which overrides [update_to]: past
    the end of its window it pays out [remaining_ + close_]. *)
Lemma cost_outside_window_pays :
  let m := Model.cost (Cost.configured "car" 0 (finite 1) 52 0 7) in
  ext_geb 2 (ModelBase.end_ (Model.base m)) = true
  /\ (Model.update_to (fun _ => 1) m 2).1 == 59
  /\ ~ (Model.update_to (fun _ => 1) m 2).1 == 0
  /\ Model.update_to (fun _ => 1) m 2 <> (0, Model.at_year m 2).
Proof.
  vm_compute. repeat split; try reflexivity; discriminate.
Qed.

(** C8 (amended): for a [Job] or a [Spending], the models that use
    [ModelBase::update_to], a call with the year outside
    [start, start + duration) or with [dt <= 0] returns 0 and changes
    nothing but the time cursor, which is set to the year; a [Cost] does
    the same when the year is before its start. *)
Theorem base_dispatch_gate (exp : double -> double) (m : Model.t)
    (year : double) :
  ((forall c, m <> Model.cost c)
   /\ (year < ModelBase.start_ (Model.base m)
       \/ (exists d, ModelBase.duration_ (Model.base m) = finite d
                     /\ ModelBase.start_ (Model.base m) + d <= year)
       \/ year - ModelBase.year_ (Model.base m) <= 0))
  \/ ((exists c, m = Model.cost c)
      /\ year < ModelBase.start_ (Model.base m)) ->
  Model.update_to exp m year = (0, Model.at_year m year)
  /\ ModelBase.year_ (Model.base (Model.at_year m year)) = year.
Proof.
  intros H. split; [|destruct m; reflexivity].
  destruct H as [[Hkind Hout] | [[c ->] Hbefore]].
  - assert (Hgate : forall b : ModelBase.t,
              b = Model.base m ->
              ltb year (ModelBase.start_ b)
              || ext_geb year (ModelBase.end_ b)
              || leb (year - ModelBase.year_ b) 0 = true).
    { intros b ->. destruct Hout as [Hlt | [(d & Hd & Hge) | Hdt]].
      - rewrite (proj2 (ltb_lt _ _) Hlt). reflexivity.
      - unfold ModelBase.end_, ModelBase.start. rewrite Hd. simpl.
        rewrite (proj2 (geb_le _ _) Hge). rewrite orb_true_r. reflexivity.
      - rewrite (proj2 (leb_le _ _) Hdt). apply orb_true_r. }
    destruct m as [j | s | c].
    + specialize (Hgate (Job.base j) eq_refl). simpl.
      unfold Job.update_to, ModelBase.update_to. simpl.
      unfold ModelBase.end_, ModelBase.start in *. simpl.
      destruct (ltb year _); [reflexivity|].
      destruct (ext_geb year _); [reflexivity|].
      simpl in Hgate. rewrite Hgate. reflexivity.
    + specialize (Hgate (Spending.base s) eq_refl). simpl.
      unfold Spending.update_to, ModelBase.update_to. simpl.
      unfold ModelBase.end_, ModelBase.start in *. simpl.
      destruct (ltb year _); [reflexivity|].
      destruct (ext_geb year _); [reflexivity|].
      simpl in Hgate. rewrite Hgate. reflexivity.
    + exfalso. exact (Hkind c eq_refl).
  - simpl in *. unfold Cost.update_to, ModelBase.start. simpl.
    rewrite (proj2 (ltb_lt _ _) Hbefore). reflexivity.
Qed.

Lemma base_dispatch_gate_witness :
  let m :=
    Model.job (Job.Build (ModelBase.Build "job" 0 (finite 30) 30) 50000 0) in
  Model.update_to (fun _ => 1) m 31 = (0, Model.at_year m 31)
  /\ ModelBase.year_ (Model.base (Model.at_year m 31)) = 31.
Proof.
  intros m. apply (base_dispatch_gate (fun _ => 1) m 31).
  left. split.
  - discriminate.
  - right. left. exists 30. split; [reflexivity | discriminate].
Defined.

(** ** The weekly loop *)

(** An integer is below [x] exactly when it is below the ceiling of [x]. *)
Lemma below_ceiling (i : Z) (x : double) :
  inject_Z i < x <-> (i < Qceiling x)%Z.
Proof.
  split.
  - intros H. rewrite Zlt_Qlt.
    apply Qlt_le_trans with x; [exact H | apply Qle_ceiling].
  - intros H. apply Qle_lt_trans with (inject_Z (Qceiling x - 1)).
    + rewrite <- Zle_Qle. lia.
    + apply Qceiling_lt.
Qed.

Lemma for_each_app {I A} (body : I -> A -> result A) (xs ys : list I)
    (a : A) :
  for_each body (xs ++ ys) a = a ← for_each body xs a; for_each body ys a.
Proof.
  revert a. induction xs as [|x xs IH]; intros a; simpl.
  - reflexivity.
  - destruct (body x a) as [a1|e]; simpl; [apply IH | reflexivity].
Qed.

(** With enough fuel the loop from [i] runs the body on [i], [i + 1], ...
    up to the last integer strictly below [years / PERIOD]. *)
Lemma for_weeks_from {A} (body : Z -> A -> result A) (years : double)
    (fuel : nat) :
  years / Main.PERIOD <= inject_Z (size_max - 1) ->
  forall (i : Z) (a : A),
  (0 <= i)%Z ->
  (Z.to_nat (Qceiling (years / Main.PERIOD) - i) < fuel)%nat ->
  Main.for_weeks body fuel years i a =
    Some (for_each body
            (map Z.of_nat
               (seq (Z.to_nat i)
                  (Z.to_nat (Qceiling (years / Main.PERIOD) - i))))
            a).
Proof.
  intros Hmax. set (bound := years / Main.PERIOD) in *.
  assert (Hceil : (Qceiling bound <= size_max - 1)%Z).
  { rewrite <- (Qceiling_Z (size_max - 1)). apply Qceiling_resp_le.
    exact Hmax. }
  induction fuel as [|fuel IH]; intros i a Hi Hfuel; [lia|].
  simpl. fold bound.
  destruct (ltb (inject_Z i) bound) eqn:Hguard.
  - apply ltb_lt, below_ceiling in Hguard.
    replace (Z.to_nat (Qceiling bound - i))
      with (S (Z.to_nat (Qceiling bound - (i + 1)))) by lia.
    simpl. rewrite Z2Nat.id by exact Hi.
    destruct (body i a) as [a1|e]; simpl; [|reflexivity].
    rewrite Z.mod_small by lia.
    rewrite IH by lia.
    replace (Z.to_nat (i + 1)) with (S (Z.to_nat i)) by lia.
    reflexivity.
  - apply ltb_ge in Hguard.
    assert (Hle : (Qceiling bound <= i)%Z).
    { rewrite <- (Qceiling_Z i). apply Qceiling_resp_le. exact Hguard. }
    replace (Z.to_nat (Qceiling bound - i)) with 0%nat by lia.
    reflexivity.
Qed.

(** C2, as stated, fails for a run of one year: [years / PERIOD] is 52,
    the loop test [i < years / PERIOD] is strict, and the steps run are 1
    to 51, without [floor(years / PERIOD) = 52]. *)
Lemma one_year_runs_51_weeks :
  floor (1 / Main.PERIOD) = 52%Z
  /\ Main.week_indices 100 1 = Some (Ok (map Z.of_nat (seq 1 51)))
  /\ ~ In 52%Z (map Z.of_nat (seq 1 51)).
Proof.
  split; [reflexivity|]. split; [vm_compute; reflexivity|].
  rewrite in_map_iff. intros (k & Hk & Hin). apply in_seq in Hin. lia.
Qed.

(** The same quotient on binary64 doubles: [1.0 / (1 / 52.0)] is exactly
    [52.0], so the rounding of [PERIOD] does not let step 52 in. *)
Module Binary64.
Import Floats.
Remark one_year_bound :
  PrimFloat.eqb (1 / (1 / 52))%float 52%float = true
  /\ PrimFloat.ltb 51%float (1 / (1 / 52))%float = true.
Proof. vm_compute. split; reflexivity. Qed.
End Binary64.

(** C2 (amended): a run of [years] years executes exactly the weekly steps
    with index [i] from 1 up to the last integer strictly below
    [years / PERIOD], that is [ceil(years / PERIOD) - 1], in increasing
    order and once each, with [PERIOD = 1/52]; the year of step [i] is
    [i * PERIOD].  The bound is at most [2^64 - 1], so the counter does
    not wrap. *)
Theorem weeks_executed {A} (body : Z -> A -> result A) (years : double)
    (fuel : nat) (a : A) :
  years / Main.PERIOD <= inject_Z (size_max - 1) ->
  (Z.to_nat (Qceiling (years / Main.PERIOD) - 1) < fuel)%nat ->
  let weeks :=
    map Z.of_nat (seq 1 (Z.to_nat (Qceiling (years / Main.PERIOD) - 1))) in
  Main.for_weeks body fuel years 1 a = Some (for_each body weeks a)
  /\ (forall i, In i weeks <->
                (1 <= i)%Z /\ inject_Z i < years / Main.PERIOD)
  /\ Main.PERIOD == 1 # 52
  /\ (forall exp file_ verbose r,
      Main.simulate exp file_ verbose fuel years r =
        Some (for_each
                (fun i r => Main.step exp file_ verbose r
                              (inject_Z i * Main.PERIOD))
                weeks r)).
Proof.
  intros Hmax Hfuel weeks.
  split; [|split; [|split]].
  - apply (for_weeks_from body years fuel Hmax 1 a); [lia | exact Hfuel].
  - intros i. unfold weeks. rewrite in_map_iff. split.
    + intros (k & <- & Hin). apply in_seq in Hin.
      split; [lia | apply below_ceiling; lia].
    + intros [H1 Hlt]. apply below_ceiling in Hlt.
      exists (Z.to_nat i). split; [lia | apply in_seq; lia].
  - reflexivity.
  - intros exp file_ verbose r. unfold Main.simulate.
    apply (for_weeks_from _ years fuel Hmax 1 r); [lia | exact Hfuel].
Qed.

Lemma weeks_executed_witness :
  Main.for_weeks (fun i done => Ok (done ++ [i])) 30 (1 # 2) 1 [] =
    Some (for_each (fun i done => Ok (done ++ [i]))
            (map Z.of_nat (seq 1 25)) []).
Proof.
  apply (weeks_executed (fun i done => Ok (done ++ [i])) (1 # 2) 30 []).
  - discriminate.
  - vm_compute. lia.
Defined.

(** ** The bankruptcy flag *)

Section Flag.

Variable exp : double -> double.
Variable file_ : list double.
Variable verbose : bool.

Lemma cash_flow_keeps_flag (r r1 : Main.Run) (year left : double) :
  Main.cash_flow exp file_ verbose r year = Ok (r1, left) ->
  Main.bankrupt r1 = Main.bankrupt r.
Proof.
  unfold Main.cash_flow.
  destruct (Main.update_all exp (Main.income_models r) year 0)
    as [total_income incomes].
  destruct (Main.update_all exp (Main.expense_models r) year 0)
    as [total_expenses expenses].
  destruct (Main.invest _ _ _ _ _ _) as [[[funds to_invest] contributed]|e];
    [|discriminate]. simpl.
  destruct (Main.spend _ _) as [[funds' to_spend]|e]; [|discriminate]. simpl.
  intros [= <- _]. reflexivity.
Qed.

Lemma step_flag (r r' : Main.Run) (year : double) :
  Main.step exp file_ verbose r year = Ok r' ->
  exists r1 left,
    Main.cash_flow exp file_ verbose r year = Ok (r1, left)
    /\ Main.bankrupt r' = gtb left 0 || Main.bankrupt r.
Proof.
  unfold Main.step.
  destruct (Main.cash_flow exp file_ verbose r year) as [[r1 left]|e] eqn:Hflow;
    [|discriminate]. simpl.
  intros [= <-]. exists r1, left. split; [reflexivity|]. simpl.
  rewrite (cash_flow_keeps_flag r r1 year left Hflow).
  destruct (gtb left 0); reflexivity.
Qed.

Lemma step_keeps_bankrupt (r r' : Main.Run) (year : double) :
  Main.bankrupt r = true ->
  Main.step exp file_ verbose r year = Ok r' ->
  Main.bankrupt r' = true.
Proof.
  intros Hr Hstep. destruct (step_flag r r' year Hstep) as (r1 & left & _ & ->).
  rewrite Hr. apply orb_true_r.
Qed.

Lemma weeks_keep_bankrupt (fuel : nat) (years : double) :
  forall (i : Z) (r r' : Main.Run),
  Main.bankrupt r = true ->
  Main.for_weeks
    (fun i r => Main.step exp file_ verbose r (inject_Z i * Main.PERIOD))
    fuel years i r = Some (Ok r') ->
  Main.bankrupt r' = true.
Proof.
  induction fuel as [|fuel IH]; intros i r r' Hr; simpl; [discriminate|].
  destruct (ltb (inject_Z i) (years / Main.PERIOD)).
  - destruct (Main.step exp file_ verbose r (inject_Z i * Main.PERIOD))
      as [r1|e] eqn:Hstep; [|discriminate].
    apply IH. exact (step_keeps_bankrupt r r1 _ Hr Hstep).
  - intros [= <-]. exact Hr.
Qed.

Lemma history_keeps_bankrupt (weeks : list Z) :
  forall r : Main.Run,
  Main.bankrupt r = true ->
  Forall (fun r' => Main.bankrupt r' = true)
    (Main.history exp file_ verbose r weeks).
Proof.
  induction weeks as [|i rest IH]; intros r Hr; simpl; [constructor|].
  destruct (Main.step exp file_ verbose r (inject_Z i * Main.PERIOD))
    as [r1|e] eqn:Hstep; [|constructor].
  pose proof (step_keeps_bankrupt r r1 _ Hr Hstep) as Hr1.
  constructor; [exact Hr1 | apply IH; exact Hr1].
Qed.

Lemma history_after_bankrupt (weeks : list Z) :
  forall (r r1 : Main.Run) (before after : list Main.Run),
  Main.history exp file_ verbose r weeks = before ++ r1 :: after ->
  Main.bankrupt r1 = true ->
  Forall (fun r' => Main.bankrupt r' = true) after.
Proof.
  induction weeks as [|i rest IH]; intros r r1 before after; simpl.
  - destruct before; discriminate.
  - destruct (Main.step exp file_ verbose r (inject_Z i * Main.PERIOD))
      as [r2|e]; [|destruct before; discriminate].
    destruct before as [|b before]; simpl.
    + intros [= -> <-] Hr1. apply history_keeps_bankrupt. exact Hr1.
    + intros [= _ Hrest]. apply (IH r2 r1 before after Hrest).
Qed.

End Flag.

(** C9: within one run the flag starts false; a step sets it when what is
    left of [to_spend] after selling from every fund is positive and keeps
    it otherwise; once it is true it is true after every later step, with
    a surplus or not, and at the end of the loop. *)
Theorem bankrupt_is_monotone (exp : double -> double) (file_ : list double)
    (verbose : bool) :
  (forall incomes expenses funds percent,
     Main.bankrupt (Main.start_run file_ incomes expenses funds percent)
     = false)
  /\ (forall r r' year,
      Main.step exp file_ verbose r year = Ok r' ->
      exists r1 left,
        Main.cash_flow exp file_ verbose r year = Ok (r1, left)
        /\ Main.bankrupt r' = gtb left 0 || Main.bankrupt r)
  /\ (forall r weeks r1 before after,
      Main.history exp file_ verbose r weeks = before ++ r1 :: after ->
      Main.bankrupt r1 = true ->
      Forall (fun r' => Main.bankrupt r' = true) after)
  /\ (forall fuel years i r r',
      Main.bankrupt r = true ->
      Main.for_weeks
        (fun i r => Main.step exp file_ verbose r (inject_Z i * Main.PERIOD))
        fuel years i r = Some (Ok r') ->
      Main.bankrupt r' = true).
Proof.
  repeat split.
  - intros r r' year. apply step_flag.
  - intros r weeks r1 before after. apply history_after_bankrupt.
  - intros fuel years i r r'. apply weeks_keep_bankrupt.
Qed.

Lemma bankrupt_is_monotone_witness :
  exists r1,
    Main.step (fun _ => 1) Household.file_ true Household.broke
      (inject_Z 1 * Main.PERIOD) = Ok r1
    /\ Main.bankrupt r1 = true
    /\ Forall (fun r' => Main.bankrupt r' = true)
         (Main.history (fun _ => 1) Household.file_ true r1 [2; 3]%Z).
Proof.
  assert (H1 : exists r1,
            Main.step (fun _ => 1) Household.file_ true Household.broke
              (inject_Z 1 * Main.PERIOD) = Ok r1
            /\ Main.bankrupt r1 = true)
    by (vm_compute; eexists; split; reflexivity).
  destruct H1 as (r1 & Hstep & Hflag).
  exists r1. split; [exact Hstep|]. split; [exact Hflag|].
  destruct (bankrupt_is_monotone (fun _ => 1) Household.file_ true)
    as (_ & _ & Hhistory & _).
  apply (Hhistory Household.broke [1; 2; 3]%Z r1 []).
  - change (Main.history (fun _ => 1) Household.file_ true Household.broke
              [1; 2; 3]%Z)
      with (match Main.step (fun _ => 1) Household.file_ true Household.broke
                    (inject_Z 1 * Main.PERIOD) with
            | Ok r => r :: Main.history (fun _ => 1) Household.file_ true r
                            [2; 3]%Z
            | Fail _ => []
            end).
    rewrite Hstep. reflexivity.
  - exact Hflag.
Defined.

(** ** The order in which the funds are bought into and sold from *)

Lemma read_last {A} (front : list A) (last : A) :
  read (front ++ [last]) (Z.of_nat (length (front ++ [last]) - 1 - 0))
  = Ok last.
Proof.
  unfold read. rewrite length_app. simpl.
  replace (Z.to_nat (Z.of_nat (length front + 1 - 1 - 0))) with
    (length front + 0)%nat by lia.
  rewrite lookup_app_r by lia.
  replace (length front + 0 - length front)%nat with 0%nat by lia.
  simpl. destruct (0 <=? _)%Z eqn:E; [reflexivity|].
  apply Z.leb_gt in E. lia.
Qed.

(** The first fund the investing loop grows and buys into is the last of
    the list, and it is offered the whole of [to_invest]. *)
Lemma invest_starts_at_last_fund (exp : double -> double)
    (file_ : list double) (year : double) (front : list Fund.t)
    (last : Fund.t) (to_invest : double) (market_contributed : list double) :
  Main.invest exp file_ year (front ++ [last]) to_invest market_contributed =
    '(_, f) ← Fund.update_to exp file_ last year;
    '(contributed, f) ← Fund.buy f to_invest;
    market_contributed ←
      store market_contributed (length (front ++ [last]) - 1 - 0) contributed;
    for_each (Main.invest_body exp file_ year) (seq 1 (length front))
      (<[(length (front ++ [last]) - 1 - 0)%nat := f]> (front ++ [last]),
       to_invest - contributed, market_contributed).
Proof.
  unfold Main.invest.
  replace (length (front ++ [last])) with (S (length front))
    by (rewrite length_app; simpl; lia).
  change (seq 0 (S (length front))) with (0%nat :: seq 1 (length front)).
  cbn [for_each]. unfold Main.invest_body. cbn beta iota.
  replace (S (length front)) with (length (front ++ [last]))
    by (rewrite length_app; simpl; lia).
  rewrite read_last. cbn [mbind result_bind].
  destruct (Fund.update_to exp file_ last year) as [[x f]|e]; [|reflexivity].
  cbn [mbind result_bind].
  destruct (Fund.buy f to_invest) as [[c f1]|e]; [|reflexivity].
  cbn [mbind result_bind].
  destruct (store market_contributed _ c) as [mc|e]; reflexivity.
Qed.

(** The first fund the spending loop sells from is the first of the list,
    and it is asked for the whole of [to_spend]. *)
Lemma spend_starts_at_first_fund (first : Fund.t) (rest : list Fund.t)
    (to_spend : double) :
  Main.spend (first :: rest) to_spend =
    for_each Main.spend_body (seq 1 (length rest))
      ((Fund.sell first to_spend).2 :: rest,
       to_spend - (Fund.sell first to_spend).1).
Proof.
  unfold Main.spend. cbn [length seq for_each].
  unfold Main.spend_body. cbn beta iota.
  change (read (first :: rest) (Z.of_nat 0)) with (Ok first).
  cbn [mbind result_bind].
  destruct (Fund.sell first to_spend) as [x f]. reflexivity.
Qed.

(** C1 fails on the code.  With the funds listed as [market; retirement],
    a weekly surplus of 1000 is absorbed by [retirement], the fund listed
    last, and [market] receives nothing; a weekly deficit of 1000 is
    withdrawn from [market], the fund listed first, and [retirement] is
    not touched.  The loops run against their own comment in [main]
    ("in the order that funds will be contributed to (reverse withdrawl
    order)"). *)
Theorem funds_used_against_list_order :
  (exists r,
     Main.step (fun _ => 1) Household.file_ true Household.surplus (1 # 52)
       = Ok r
     /\ Forall2 Qeq (map Fund.amount (Main.market_models Household.surplus))
          [0; 0]
     /\ Forall2 Qeq (map Fund.amount (Main.market_models r)) [0; 1000])
  /\ (exists r,
      Main.step (fun _ => 1) Household.file_ true Household.deficit (1 # 52)
        = Ok r
      /\ Forall2 Qeq (map Fund.amount (Main.market_models Household.deficit))
           [5000; 5000]
      /\ Forall2 Qeq (map Fund.amount (Main.market_models r)) [4000; 5000]).
Proof.
  split; eexists; (split; [vm_compute; reflexivity|]);
    vm_compute; split; repeat constructor.
Qed.

(** In summary mode the store into [market_contributed] is out of range:
    the vector is only resized when [verbose] is set. *)
Remark summary_mode_store_is_undefined :
  Main.step (fun _ => 1) Household.file_ false Household.surplus (1 # 52)
    = Fail undefined_behaviour.
Proof. vm_compute. reflexivity. Qed.

(** * Further properties of the models *)

(** ** Job and Spending over successive steps *)

Arguments floor : simpl never.

Lemma floor_back (year prev : double) :
  floor (year - (year - prev)) = floor prev.
Proof. unfold floor. apply Qfloor_comp. ring. Qed.

(** Inside the window and the calendar year, a step pays [dt * salary_]
    and moves the cursor. *)
Lemma job_step (exp : double -> double) (j : Job.t) (year : double) :
  ModelBase.start_ (Job.base j) <= ModelBase.year_ (Job.base j) ->
  ModelBase.year_ (Job.base j) < year ->
  ext_geb year (ModelBase.end_ (Job.base j)) = false ->
  floor year = floor (ModelBase.year_ (Job.base j)) ->
  Job.update_to exp j year =
    ((year - ModelBase.year_ (Job.base j)) * Job.salary_ j,
     Job.Build (ModelBase.set_year (Job.base j) year).2 (Job.salary_ j)
       (Job.rate_ j)).
Proof.
  intros Hstart Hlt Hend Hfloor.
  unfold Job.update_to, ModelBase.update_to. simpl.
  unfold ModelBase.end_, ModelBase.start in *. simpl.
  assert (H1 : ltb year (ModelBase.start_ (Job.base j)) = false)
    by (apply ltb_ge; lra).
  assert (H2 : leb (year - ModelBase.year_ (Job.base j)) 0 = false)
    by (apply leb_gt; lra).
  rewrite H1, Hend, H2. unfold Job.update. simpl.
  unfold ModelBase.year. simpl.
  rewrite floor_back, Hfloor, Z.eqb_refl. reflexivity.
Qed.

(** A step into another calendar year applies the raise first. *)
Lemma job_step_raise (exp : double -> double) (j : Job.t) (year : double) :
  ModelBase.start_ (Job.base j) <= ModelBase.year_ (Job.base j) ->
  ModelBase.year_ (Job.base j) < year ->
  ext_geb year (ModelBase.end_ (Job.base j)) = false ->
  floor year <> floor (ModelBase.year_ (Job.base j)) ->
  Job.update_to exp j year =
    ((year - ModelBase.year_ (Job.base j))
     * (Job.salary_ j * exp (Job.rate_ j)),
     Job.Build (ModelBase.set_year (Job.base j) year).2
       (Job.salary_ j * exp (Job.rate_ j)) (Job.rate_ j)).
Proof.
  intros Hstart Hlt Hend Hfloor.
  unfold Job.update_to, ModelBase.update_to. simpl.
  unfold ModelBase.end_, ModelBase.start in *. simpl.
  assert (H1 : ltb year (ModelBase.start_ (Job.base j)) = false)
    by (apply ltb_ge; lra).
  assert (H2 : leb (year - ModelBase.year_ (Job.base j)) 0 = false)
    by (apply leb_gt; lra).
  rewrite H1, Hend, H2. unfold Job.update. simpl.
  unfold ModelBase.year. simpl.
  rewrite floor_back.
  rewrite (proj2 (Z.eqb_neq _ _)) by congruence. reflexivity.
Qed.

(** X1: inside its window and inside one calendar year a job pays, at
    every step, the length of the step times its salary, and the salary
    stays as it is.  A step that ends in another calendar year applies
    the raise first and pays the whole step, also the part before the
    new year, at the raised salary. *)
Theorem job_income_within_year (exp : double -> double) (j : Job.t)
    (years : list double) :
  ModelBase.start_ (Job.base j) <= ModelBase.year_ (Job.base j) ->
  Sorted Qlt (ModelBase.year_ (Job.base j) :: years) ->
  Forall (fun y => ext_geb y (ModelBase.end_ (Job.base j)) = false
                   /\ floor y = floor (ModelBase.year_ (Job.base j))) years ->
  (advance (Job.update_to exp) j years).1
    = map (fun dt => dt * Job.salary_ j)
        (steps (ModelBase.year_ (Job.base j)) years)
  /\ Job.salary_ (advance (Job.update_to exp) j years).2 = Job.salary_ j
  /\ (forall year,
        ModelBase.year_ (Job.base j) < year ->
        ext_geb year (ModelBase.end_ (Job.base j)) = false ->
        floor year <> floor (ModelBase.year_ (Job.base j)) ->
        (Job.update_to exp j year).1
          = (year - ModelBase.year_ (Job.base j))
            * (Job.salary_ j * exp (Job.rate_ j))
        /\ Job.salary_ (Job.update_to exp j year).2
           = Job.salary_ j * exp (Job.rate_ j)).
Proof.
  intros Hstart Hsorted Hall.
  assert (Hsteps :
    (advance (Job.update_to exp) j years).1
      = map (fun dt => dt * Job.salary_ j)
          (steps (ModelBase.year_ (Job.base j)) years)
    /\ Job.salary_ (advance (Job.update_to exp) j years).2 = Job.salary_ j).
  { clear - Hstart Hsorted Hall. revert j Hstart Hsorted Hall.
    induction years as [|y rest IH]; intros j Hstart Hsorted Hall.
    - split; reflexivity.
    - apply Sorted_inv in Hsorted as [Hrest Hhd]. apply HdRel_inv in Hhd.
      apply Forall_cons in Hall as [[Hend Hfloor] Hall].
      cbn [advance steps map].
      rewrite (job_step exp j y Hstart Hhd Hend Hfloor).
      set (j1 := Job.Build (ModelBase.set_year (Job.base j) y).2
                   (Job.salary_ j) (Job.rate_ j)).
      destruct (IH j1) as [Hpaid Hsalary].
      + simpl. lra.
      + exact Hrest.
      + eapply Forall_impl; [exact Hall|]. simpl. intros z [Hz1 Hz2].
        split; [exact Hz1 | congruence].
      + destruct (advance (Job.update_to exp) j1 rest) as [amounts j2].
        cbn [fst snd] in *. rewrite Hpaid. split; [reflexivity|].
        exact Hsalary. }
  destruct Hsteps as [Hpaid Hsalary].
  split; [exact Hpaid|]. split; [exact Hsalary|].
  intros year Hlt Hend Hfloor.
  rewrite (job_step_raise exp j year Hstart Hlt Hend Hfloor).
  split; reflexivity.
Qed.

Lemma job_income_within_year_witness :
  let j := Job.Build (ModelBase.Build "job" 0 (finite 30) (1 # 4)) 52000 (1 # 50) in
  (advance (Job.update_to (fun _ => 2)) j [1 # 3; 1 # 2; 9 # 10]).1
    = map (fun dt => dt * 52000) (steps (1 # 4) [1 # 3; 1 # 2; 9 # 10])
  /\ (Job.update_to (fun _ => 2) j (5 # 4)).1
     = ((5 # 4) - (1 # 4)) * (52000 * 2).
Proof.
  intros j.
  destruct (job_income_within_year (fun _ => 2) j [1 # 3; 1 # 2; 9 # 10])
    as (Hpaid & _ & Hraise).
  - discriminate.
  - repeat constructor.
  - repeat constructor.
  - split; [exact Hpaid|].
    apply (Hraise (5 # 4)); [reflexivity | reflexivity | discriminate].
Defined.

Lemma spending_step_linear (exp : double -> double) (s : Spending.t)
    (year : double) :
  Spending.linear_ s = true ->
  ModelBase.start_ (Spending.base s) <= ModelBase.year_ (Spending.base s) ->
  ModelBase.year_ (Spending.base s) < year ->
  ext_geb year (ModelBase.end_ (Spending.base s)) = false ->
  Spending.update_to exp s year =
    let dt := year - ModelBase.year_ (Spending.base s) in
    let annual := Spending.annual_ s + dt * Spending.rate_ s in
    (dt * annual,
     Spending.Build (ModelBase.set_year (Spending.base s) year).2 annual
       (Spending.rate_ s) true).
Proof.
  intros Hlinear Hstart Hlt Hend.
  unfold Spending.update_to, ModelBase.update_to. simpl.
  unfold ModelBase.end_, ModelBase.start in *. simpl.
  assert (H1 : ltb year (ModelBase.start_ (Spending.base s)) = false)
    by (apply ltb_ge; lra).
  assert (H2 : leb (year - ModelBase.year_ (Spending.base s)) 0 = false)
    by (apply leb_gt; lra).
  rewrite H1, Hend, H2. unfold Spending.update. simpl.
  rewrite Hlinear. reflexivity.
Qed.

(** X2: in linear mode every step inside the window first moves the
    annual spending by the rate times the length of the step and then
    charges the step at the new figure.  Over such steps the annual
    spending never goes down when the rate is not negative; with a zero
    rate it stays as it is, and every step costs its length times the
    annual spending. *)
Theorem spending_never_shrinks (exp : double -> double) (s : Spending.t)
    (years : list double) :
  Spending.linear_ s = true ->
  ModelBase.start_ (Spending.base s) <= ModelBase.year_ (Spending.base s) ->
  Sorted Qlt (ModelBase.year_ (Spending.base s) :: years) ->
  Forall (fun y => ext_geb y (ModelBase.end_ (Spending.base s)) = false)
    years ->
  (0 <= Spending.rate_ s ->
   Spending.annual_ s
     <= Spending.annual_ (advance (Spending.update_to exp) s years).2)
  /\ (Spending.rate_ s == 0 ->
      Spending.annual_ (advance (Spending.update_to exp) s years).2
        == Spending.annual_ s
      /\ Forall2 (fun cost dt => cost == dt * Spending.annual_ s)
           (advance (Spending.update_to exp) s years).1
           (steps (ModelBase.year_ (Spending.base s)) years)).
Proof.
  revert s. induction years as [|y rest IH];
    intros s Hlinear Hstart Hsorted Hall.
  - cbn [advance steps fst snd]. split; [intros _; lra|].
    intros _. split; [reflexivity | constructor].
  - apply Sorted_inv in Hsorted as [Hrest Hhd]. apply HdRel_inv in Hhd.
    apply Forall_cons in Hall as [Hend Hall].
    cbn [advance steps].
    rewrite (spending_step_linear exp s y Hlinear Hstart Hhd Hend).
    cbv zeta.
    set (s1 := Spending.Build (ModelBase.set_year (Spending.base s) y).2
                 (Spending.annual_ s
                  + (y - ModelBase.year_ (Spending.base s))
                    * Spending.rate_ s)
                 (Spending.rate_ s) true).
    assert (Hstart1 : ModelBase.start_ (Spending.base s1)
                      <= ModelBase.year_ (Spending.base s1))
      by (simpl; lra).
    specialize (IH s1 eq_refl Hstart1 Hrest Hall). revert IH.
    unfold s1. clear s1 Hstart1.
    cbn [Spending.annual_ Spending.rate_ Spending.base ModelBase.set_year
         snd ModelBase.year_].
    destruct (advance (Spending.update_to exp) _ rest) as [amounts s2].
    cbn [fst snd]. intros [Hgrow Hflat]. split.
    + intros Hrate. specialize (Hgrow Hrate).
      assert (0 <= (y - ModelBase.year_ (Spending.base s))
                   * Spending.rate_ s)
        by (apply Qmult_le_0_compat; lra).
      lra.
    + intros Hrate. destruct (Hflat Hrate) as [Hannual Hcosts].
      assert (Hsame : Spending.annual_ s
                      + (y - ModelBase.year_ (Spending.base s))
                        * Spending.rate_ s
                      == Spending.annual_ s)
        by (rewrite Hrate; ring).
      split; [lra|]. constructor.
      * rewrite Hsame. reflexivity.
      * eapply Forall2_impl; [exact Hcosts|].
        cbv beta. intros cost dt Hcost. rewrite Hcost, Hsame. reflexivity.
Qed.

Lemma spending_never_shrinks_witness :
  let s :=
    Spending.Build (ModelBase.Build "spending" 0 infinity 0) 40000 1000 true in
  40000
  <= Spending.annual_
       (advance (Spending.update_to (fun _ => 1)) s [1 # 52; 1 # 2; 3]).2.
Proof.
  intros s.
  apply (spending_never_shrinks (fun _ => 1) s [1 # 52; 1 # 2; 3]).
  - reflexivity.
  - discriminate.
  - repeat constructor.
  - repeat constructor.
  - discriminate.
Defined.

(** ** What a cost pays *)

Section CostBounds.

Variable start0 : double.
Variable window : ext.
Hypothesis real_window :
  window = infinity \/ exists d, window = finite d /\ 0 < d.

(** A cost with sound figures, or one that has paid its closing cost. *)
Local Abbreviation sound c :=
  (0 <= Cost.close_ c /\ 0 <= Cost.remaining_ c /\ 0 <= Cost.total_ c
   /\ Cost.down_ c <= Cost.remaining_ c /\ Cost.down_ c <= Cost.total_ c).
Local Abbreviation closed c :=
  (Cost.remaining_ c = 0 /\ Cost.close_ c = 0
   /\ ext_gtb (ModelBase.year_ (Cost.base c)) (ext_add start0 window) = true).
Local Abbreviation kept c :=
  (ModelBase.start_ (Cost.base c) = start0
   /\ ModelBase.duration_ (Cost.base c) = window
   /\ (sound c \/ closed c)).

Lemma amortised_not_negative (dt total : double) :
  0 <= dt -> 0 <= total ->
  0 <= ext_div (dt * total) (ext_sub (ext_add start0 window) start0).
Proof.
  intros Hdt Htotal.
  destruct real_window as [-> | (d & -> & Hd)]; simpl; [discriminate|].
  apply Qle_shift_div_l; [lra|].
  pose proof (Qmult_le_0_compat dt total Hdt Htotal). lra.
Qed.

Lemma cost_step_bounds (c : Cost.t) (year : double) :
  kept c ->
  ModelBase.year_ (Cost.base c) <= year ->
  0 <= (Cost.update_to c year).1
  /\ kept (Cost.update_to c year).2
  /\ ModelBase.year_ (Cost.base (Cost.update_to c year).2) = year.
Proof.
  intros (Hstart & Hwindow & Hstate) Hyear.
  unfold Cost.update_to, ModelBase.start, ModelBase.end_, ModelBase.start.
  cbn [ModelBase.set_year fst snd ModelBase.start_ ModelBase.duration_
       ModelBase.year_].
  rewrite Hstart, Hwindow.
  destruct (ltb year start0) eqn:Ebefore.
  { cbn [fst snd Cost.base Cost.close_ Cost.remaining_ Cost.total_
         Cost.down_ ModelBase.start_ ModelBase.duration_ ModelBase.year_].
    repeat split; try reflexivity; try discriminate.
    destruct Hstate as [Hsound | (Hr & Hc & Hpast)]; [left; exact Hsound|].
    exfalso. order_facts.
    destruct real_window as [Hw | (d & Hw & Hd)]; rewrite Hw in Hpast;
      simpl in Hpast; [discriminate|]. order_facts. lra. }
  destruct (ext_gtb year (ext_add start0 window)) eqn:Epast.
  { cbn [fst snd Cost.base Cost.close_ Cost.remaining_ Cost.total_
         Cost.down_ ModelBase.start_ ModelBase.duration_ ModelBase.year_].
    repeat split; try reflexivity.
    - destruct Hstate as [(? & ? & _) | (-> & -> & _)]; [lra | discriminate].
    - right. repeat split; try reflexivity. exact Epast. }
  assert (Hsound : sound c).
  { destruct Hstate as [Hsound | (_ & _ & Hpast)]; [exact Hsound|].
    exfalso.
    destruct real_window as [Hw | (d & Hw & Hd)]; rewrite Hw in Hpast, Epast;
      simpl in Hpast, Epast; [discriminate|]. order_facts. lra. }
  destruct Hsound as (Hc & Hr & Ht & Hdr & Hdt).
  destruct (gtb (Cost.down_ c) 0) eqn:Edown.
  { cbn [fst snd Cost.base Cost.close_ Cost.remaining_ Cost.total_
         Cost.down_ ModelBase.start_ ModelBase.duration_ ModelBase.year_].
    order_facts. repeat split; try reflexivity; lra. }
  cbv zeta.
  cbn [fst snd Cost.base Cost.close_ Cost.remaining_ Cost.total_
       Cost.down_ ModelBase.start_ ModelBase.duration_ ModelBase.year_].
  order_facts.
  pose proof (amortised_not_negative
                (year - ModelBase.year_ (Cost.base c)) (Cost.total_ c)
                ltac:(lra) Ht) as Hamount.
  destruct (std_min_spec (Cost.remaining_ c)
              (ext_div ((year - ModelBase.year_ (Cost.base c)) * Cost.total_ c)
                 (ext_sub (ext_add start0 window) start0)))
    as [[Hlt ->] | [Hle ->]].
  - repeat split; try reflexivity; lra.
  - repeat split; try reflexivity; lra.
Qed.

Lemma cost_advance_bounds (years : list double) :
  forall c : Cost.t,
  kept c ->
  Sorted Qle (ModelBase.year_ (Cost.base c) :: years) ->
  Forall (fun x => 0 <= x) (Cost.advance c years).1
  /\ kept (Cost.advance c years).2.
Proof.
  induction years as [|y rest IH]; intros c Hkept Hsorted.
  - simpl. split; [constructor | exact Hkept].
  - apply Sorted_inv in Hsorted as [Hrest Hhd]. apply HdRel_inv in Hhd.
    destruct (cost_step_bounds c y Hkept Hhd) as (Hx & Hkept1 & Hy).
    cbn [Cost.advance].
    destruct (Cost.update_to c y) as [x c1]. cbn [fst snd] in Hx, Hkept1, Hy.
    rewrite <- Hy in Hrest.
    destruct (IH c1 Hkept1 Hrest) as [Hxs Hkept2].
    destruct (Cost.advance c1 rest) as [xs c2]. cbn [fst snd] in *.
    split; [constructor; assumption | exact Hkept2].
Qed.

End CostBounds.

(** X3: a cost with a window of positive or infinite length, a total and a
    closing cost that are not negative and a down payment within the
    total, advanced through years that never go back, never pays a
    negative amount, and what remains to be paid never becomes
    negative. *)
Theorem cost_never_pays_negative (c : Cost.t) (years : list double) :
  ModelBase.duration_ (Cost.base c) = infinity
    \/ (exists d, ModelBase.duration_ (Cost.base c) = finite d /\ 0 < d) ->
  0 <= Cost.close_ c ->
  0 <= Cost.total_ c ->
  Cost.remaining_ c = Cost.total_ c ->
  Cost.down_ c <= Cost.total_ c ->
  Sorted Qle (ModelBase.year_ (Cost.base c) :: years) ->
  Forall (fun x => 0 <= x) (Cost.advance c years).1
  /\ 0 <= Cost.remaining_ (Cost.advance c years).2
  /\ 0 <= Cost.close_ (Cost.advance c years).2.
Proof.
  intros Hwindow Hclose Htotal Hremaining Hdown Hsorted.
  destruct (cost_advance_bounds (ModelBase.start_ (Cost.base c))
              (ModelBase.duration_ (Cost.base c)) Hwindow years c)
    as [Hamounts (_ & _ & Hstate)].
  - repeat split; try reflexivity. left. rewrite Hremaining.
    repeat split; assumption || lra.
  - exact Hsorted.
  - split; [exact Hamounts|].
    destruct Hstate as [(? & ? & _) | (Hr & Hc & _)].
    + split; assumption.
    + rewrite Hr, Hc. split; discriminate.
Qed.

Lemma cost_never_pays_negative_witness :
  let c := Cost.configured "car" 1 (finite 2) 5200 1000 300 in
  let years := [1 # 2; 1; 3 # 2; 3 # 2; 5 # 2; 3; 4; 5] in
  Forall (fun x => 0 <= x) (Cost.advance c years).1
  /\ 0 <= Cost.remaining_ (Cost.advance c years).2
  /\ 0 <= Cost.close_ (Cost.advance c years).2.
Proof.
  intros c years. apply (cost_never_pays_negative c years).
  - right. exists 2. split; reflexivity.
  - discriminate.
  - discriminate.
  - reflexivity.
  - discriminate.
  - repeat constructor; discriminate.
Defined.

Lemma cost_without_end_step (c : Cost.t) (year : double) :
  ModelBase.duration_ (Cost.base c) = infinity ->
  0 <= Cost.remaining_ c ->
  Cost.down_ c <= Cost.remaining_ c ->
  ModelBase.start_ (Cost.base c) <= year ->
  (Cost.update_to c year).1 == Qmax 0 (Cost.down_ c)
  /\ Cost.remaining_ (Cost.update_to c year).2
     == Cost.remaining_ c - Qmax 0 (Cost.down_ c)
  /\ Cost.down_ (Cost.update_to c year).2 <= 0
  /\ ModelBase.duration_ (Cost.base (Cost.update_to c year).2) = infinity
  /\ ModelBase.start_ (Cost.base (Cost.update_to c year).2)
     = ModelBase.start_ (Cost.base c).
Proof.
  intros Hwindow Hr Hdown Hstart.
  unfold Cost.update_to, ModelBase.start, ModelBase.end_, ModelBase.start.
  cbn [ModelBase.set_year fst snd ModelBase.start_ ModelBase.duration_
       ModelBase.year_].
  rewrite Hwindow, (proj2 (ltb_ge _ _) Hstart).
  cbn [ext_add ext_gtb ext_sub ext_div].
  destruct (gtb (Cost.down_ c) 0) eqn:Edown; order_facts.
  - cbn [fst snd Cost.base Cost.close_ Cost.remaining_ Cost.total_
         Cost.down_ ModelBase.start_ ModelBase.duration_ ModelBase.year_].
    rewrite (Q.max_r 0 (Cost.down_ c)) by lra.
    repeat split; try reflexivity. discriminate.
  - cbn [fst snd Cost.base Cost.close_ Cost.remaining_ Cost.total_
         Cost.down_ ModelBase.start_ ModelBase.duration_ ModelBase.year_].
    rewrite (Q.max_l 0 (Cost.down_ c)) by lra.
    destruct (std_min_spec (Cost.remaining_ c) 0) as [[? ->] | [? ->]];
      repeat split; try reflexivity; try assumption; lra.
Qed.

(** X4: a cost whose duration is left at its default, infinity, is never
    amortised and never closed: advanced through any years at or after its
    start it pays its down payment, if it has one, and nothing else, and
    the rest of its total stays in [remaining_]. *)
Theorem cost_without_end_pays_down_only (c : Cost.t) (year : double)
    (years : list double) :
  ModelBase.duration_ (Cost.base c) = infinity ->
  0 <= Cost.remaining_ c ->
  Cost.down_ c <= Cost.remaining_ c ->
  Forall (fun y => ModelBase.start_ (Cost.base c) <= y) (year :: years) ->
  sum (Cost.advance c (year :: years)).1 == Qmax 0 (Cost.down_ c)
  /\ Cost.remaining_ (Cost.advance c (year :: years)).2
     == Cost.remaining_ c - Qmax 0 (Cost.down_ c).
Proof.
  intros Hwindow Hr Hdown Hall.
  apply Forall_cons in Hall as [Hyear Hall].
  destruct (cost_without_end_step c year Hwindow Hr Hdown Hyear)
    as (Hx & Hr1 & Hd1 & Hw1 & Hs1).
  cbn [Cost.advance].
  destruct (Cost.update_to c year) as [x c1]. cbn [fst snd] in *.
  assert (Hrest : forall (ys : list double) (c2 : Cost.t),
            ModelBase.duration_ (Cost.base c2) = infinity ->
            0 <= Cost.remaining_ c2 ->
            Cost.down_ c2 <= 0 ->
            Forall (fun y => ModelBase.start_ (Cost.base c2) <= y) ys ->
            sum (Cost.advance c2 ys).1 == 0
            /\ Cost.remaining_ (Cost.advance c2 ys).2 == Cost.remaining_ c2).
  { induction ys as [|y ys IH]; intros c2 Hw2 Hr2 Hd2 Hys.
    - simpl. split; reflexivity.
    - apply Forall_cons in Hys as [Hy Hys].
      destruct (cost_without_end_step c2 y Hw2 Hr2 ltac:(lra) Hy)
        as (Hx2 & Hr3 & Hd3 & Hw3 & Hs3).
      rewrite (Q.max_l 0 (Cost.down_ c2)) in Hx2, Hr3 by exact Hd2.
      cbn [Cost.advance].
      destruct (Cost.update_to c2 y) as [x2 c3]. cbn [fst snd] in *.
      rewrite <- Hs3 in Hys.
      destruct (IH c3 Hw3 ltac:(lra) Hd3 Hys) as [Hsum Hrem].
      destruct (Cost.advance c3 ys) as [xs c4]. cbn [fst snd] in *.
      split; [|lra]. cbn [sum fold_right]. fold (sum xs). lra. }
  rewrite <- Hs1 in Hall.
  assert (Hr1' : 0 <= Cost.remaining_ c1).
  { destruct (Qlt_le_dec 0 (Cost.down_ c)).
    - rewrite (Q.max_r 0 (Cost.down_ c)) in Hr1 by lra. lra.
    - rewrite (Q.max_l 0 (Cost.down_ c)) in Hr1 by lra. lra. }
  destruct (Hrest years c1 Hw1 Hr1' Hd1 Hall) as [Hsum Hrem].
  destruct (Cost.advance c1 years) as [xs c2]. cbn [fst snd] in *.
  split; [|lra]. cbn [sum fold_right]. fold (sum xs). lra.
Qed.

Lemma cost_without_end_pays_down_only_witness :
  let c := Cost.configured "car" 0 infinity 5200 1000 300 in
  sum (Cost.advance c [1 # 52; 1; 10; 100]).1 == Qmax 0 1000
  /\ Cost.remaining_ (Cost.advance c [1 # 52; 1; 10; 100]).2
     == 5200 - Qmax 0 1000.
Proof.
  intros c. apply (cost_without_end_pays_down_only c (1 # 52) [1; 10; 100]).
  - reflexivity.
  - discriminate.
  - discriminate.
  - repeat constructor; discriminate.
Defined.

(** ** More on buying and selling *)

(** X5: on a fund whose yearly totals are within a positive limit, or that
    has no limit, [buy] never returns a negative amount nor more than it
    was offered; it adds what it returns to the balance; a negative offer
    changes nothing; and once the current year's total has reached the
    limit it absorbs nothing. *)
Theorem buy_absorbs_within_offer (f f' : FundBase.t) (amount x : double) :
  (0 < FundBase.contribution_limit_ f ->
   forall k, FundBase.contributed f k <= FundBase.contribution_limit_ f) ->
  FundBase.buy f amount = Ok (x, f') ->
  0 <= x
  /\ x <= Qmax 0 amount
  /\ FundBase.amount_ f' == FundBase.amount_ f + x
  /\ (amount < 0 -> f' = f)
  /\ (0 < FundBase.contribution_limit_ f ->
      forall k,
      to_size_t (floor (ModelBase.year (FundBase.base f))) = Ok k ->
      FundBase.contributed f k == FundBase.contribution_limit_ f ->
      x == 0).
Proof.
  intros Hinv Hbuy.
  pose proof (buy_balance f f' amount x Hbuy) as Hbalance.
  unfold FundBase.buy in Hbuy.
  destruct (ltb amount 0) eqn:Eneg; order_facts.
  { injection Hbuy as <- <-.
    rewrite (Q.max_l 0 amount) by lra.
    repeat split; try reflexivity; try discriminate; assumption. }
  rewrite (Q.max_r 0 amount) by exact Eneg.
  destruct (gtb (FundBase.contribution_limit_ f) 0) eqn:Elimit; order_facts.
  - destruct (to_size_t _) as [k|e] eqn:Hk; [|discriminate].
    cbn [mbind result_bind] in Hbuy. injection Hbuy as <- <-.
    specialize (Hinv Elimit k).
    destruct (std_min_spec amount
                (FundBase.contribution_limit_ f - FundBase.contributed f k))
      as [[Hlt Hmin] | [Hle Hmin]]; rewrite Hmin in *;
      (repeat split; try assumption; try lra;
       intros _ k' [= <-] Hfull; lra).
  - injection Hbuy as <- <-.
    repeat split; try assumption; lra.
Qed.

Lemma buy_absorbs_within_offer_witness :
  let f :=
    FundBase.Build (ModelBase.Build "retirement" 0 infinity 1)
      (<[1%Z := 19000]> ∅) 20000 5000 in
  exists x f',
    FundBase.buy f 3000 = Ok (x, f')
    /\ 0 <= x /\ x <= Qmax 0 3000
    /\ FundBase.amount_ f' == 5000 + x.
Proof.
  intros f.
  assert (Hbuy : exists x f', FundBase.buy f 3000 = Ok (x, f'))
    by (vm_compute; eexists; eexists; reflexivity).
  destruct Hbuy as (x & f' & Hbuy). exists x, f'.
  split; [exact Hbuy|].
  destruct (buy_absorbs_within_offer f f' 3000 x) as (H0 & H1 & H2 & _).
  - intros _ k. unfold FundBase.contributed. simpl.
    destruct (decide (1%Z = k)) as [<- | Hne].
    + rewrite lookup_insert_eq. discriminate.
    + rewrite lookup_insert_ne by exact Hne. rewrite lookup_empty.
      discriminate.
  - exact Hbuy.
  - exact (conj H0 (conj H1 H2)).
Defined.

(** X6: the limit starts afresh each calendar year.  After [update_to] has
    moved a fund with a positive limit into a calendar year it has not
    contributed in, [buy] absorbs a non-negative offer up to the whole
    limit, whatever earlier years hold, and the earlier years' totals
    stay as they were. *)
Theorem limit_starts_afresh_each_year
    (update_amount : ModelBase.t -> double -> double -> result double)
    (f f1 : FundBase.t) (year grown amount : double) (k : Z) :
  0 < FundBase.contribution_limit_ f ->
  0 <= amount ->
  to_size_t (floor year) = Ok k ->
  FundBase.contributed_ f !! k = None ->
  FundBase.update_to update_amount f year = Ok (grown, f1) ->
  exists x f2,
    FundBase.buy f1 amount = Ok (x, f2)
    /\ x == Qmin amount (FundBase.contribution_limit_ f)
    /\ FundBase.contributed f2 k == x
    /\ forall j, j <> k -> FundBase.contributed f2 j = FundBase.contributed f j.
Proof.
  intros Hlimit Hamount Hk Hnone Hupdate.
  unfold FundBase.update_to in Hupdate.
  cbn [ModelBase.set_year] in Hupdate.
  destruct (update_amount _ _ _) as [a|e]; [|discriminate].
  cbn [mbind result_bind] in Hupdate. injection Hupdate as <- <-.
  unfold FundBase.buy.
  cbn [FundBase.base FundBase.contribution_limit_ FundBase.contributed_
       FundBase.amount_ ModelBase.year ModelBase.year_].
  rewrite (proj2 (ltb_ge _ _) Hamount), (proj2 (gtb_lt _ _) Hlimit), Hk.
  cbn [mbind result_bind].
  unfold FundBase.contributed.
  cbn [FundBase.contributed_]. rewrite Hnone. cbn [default from_option].
  eexists. eexists. split; [reflexivity|].
  split; [|split].
  - destruct (std_min_spec amount (FundBase.contribution_limit_ f - 0))
      as [[Hlt ->] | [Hle ->]].
    + rewrite Q.min_r by lra. ring.
    + rewrite Q.min_l by lra. reflexivity.
  - unfold FundBase.contributed. cbn [FundBase.contributed_].
    rewrite lookup_insert_eq. cbn [default from_option id]. ring.
  - intros j Hj. unfold FundBase.contributed. cbn [FundBase.contributed_].
    rewrite lookup_insert_ne by congruence. reflexivity.
Qed.

Lemma limit_starts_afresh_each_year_witness :
  let f :=
    FundBase.Build (ModelBase.Build "retirement" 0 infinity (99 # 100))
      (<[0%Z := 20000]> ∅) 20000 20000 in
  exists grown f1 x f2,
    FundBase.update_to (fun _ a _ => Ok a) f (53 # 52) = Ok (grown, f1)
    /\ FundBase.buy f1 30000 = Ok (x, f2)
    /\ x == Qmin 30000 20000.
Proof.
  intros f.
  assert (Hup : exists grown f1,
            FundBase.update_to (fun _ a _ => Ok a) f (53 # 52)
            = Ok (grown, f1))
    by (vm_compute; eexists; eexists; reflexivity).
  destruct Hup as (grown & f1 & Hup). exists grown, f1.
  destruct (limit_starts_afresh_each_year (fun _ a _ => Ok a) f f1 (53 # 52)
              grown 30000 1)
    as (x & f2 & Hbuy & Hx & _).
  - reflexivity.
  - discriminate.
  - reflexivity.
  - reflexivity.
  - exact Hup.
  - exists x, f2. exact (conj Hup (conj Hbuy Hx)).
Defined.

(** X7: on an active fund without limit and with a balance that is not
    negative, what a [buy] has just absorbed can be withdrawn again in
    full: a [sell] of the same amount straight after returns all of it,
    leaves a balance that is not negative, and touches nothing else. *)
Theorem bought_amount_can_be_sold (f : FundBase.t) (amount : double) :
  FundBase.contribution_limit_ f <= 0 ->
  ModelBase.start (FundBase.base f) <= ModelBase.year (FundBase.base f) ->
  0 <= amount ->
  0 <= FundBase.amount_ f ->
  exists f1,
    FundBase.buy f amount = Ok (amount, f1)
    /\ (FundBase.sell f1 amount).1 = amount
    /\ FundBase.amount_ (FundBase.sell f1 amount).2
       = FundBase.amount_ f + amount - amount
    /\ 0 <= FundBase.amount_ (FundBase.sell f1 amount).2
    /\ FundBase.base (FundBase.sell f1 amount).2 = FundBase.base f
    /\ FundBase.contributed_ (FundBase.sell f1 amount).2
       = FundBase.contributed_ f.
Proof.
  intros Hlimit Hactive Hamount Hbalance.
  unfold FundBase.buy.
  rewrite (proj2 (ltb_ge _ _) Hamount), (proj2 (gtb_le _ _) Hlimit).
  eexists. split; [reflexivity|].
  unfold FundBase.sell.
  cbn [FundBase.base FundBase.contribution_limit_ FundBase.contributed_
       FundBase.amount_].
  rewrite (proj2 (ltb_ge _ _) Hactive), (proj2 (ltb_ge _ _) Hamount).
  assert (Henough : geb (FundBase.amount_ f + amount) amount = true)
    by (apply geb_le; lra).
  rewrite Henough.
  cbn [fst snd FundBase.base FundBase.contribution_limit_
       FundBase.contributed_ FundBase.amount_].
  repeat split; try reflexivity. lra.
Qed.

Lemma bought_amount_can_be_sold_witness :
  let f := FundBase.Build (ModelBase.Build "market" 0 infinity 1) ∅ 0 100 in
  exists f1,
    FundBase.buy f 40 = Ok (40, f1)
    /\ (FundBase.sell f1 40).1 = 40
    /\ 0 <= FundBase.amount_ (FundBase.sell f1 40).2.
Proof.
  intros f.
  destruct (bought_amount_can_be_sold f 40) as (f1 & H1 & H2 & _ & H3 & _);
    try discriminate.
  exists f1. exact (conj H1 (conj H2 H3)).
Defined.

(** ** The market data beyond its last sample *)

Lemma lookup_by_index (file_ : list double) (f : MarketFund.t)
    (year : double) (before : Z) :
  floor (year * (36525 # 100) + MarketFund.day_offset_ f) = before ->
  (0 <= before < size_max)%Z ->
  (2 * MarketFund.data_size file_ < size_max)%Z ->
  MarketFund.lookup file_ f year =
    if (before <? MarketFund.data_size file_)%Z then read file_ before
    else if (2 * MarketFund.data_size file_ <=? before)%Z then
      Fail (runtime_error "Invalid after index.")
    else
      x ← read file_ (before mod MarketFund.data_size file_);
      Ok (MarketFund.wrap_around_multiplier_ f * x).
Proof.
  intros Hday Hbefore Hsize. unfold MarketFund.lookup.
  rewrite Hday, (to_size_t_in_range before Hbefore).
  cbn [mbind result_bind].
  rewrite Z.mod_small, Z.geb_leb; [reflexivity|].
  unfold MarketFund.data_size in *. lia.
Qed.

(** X9: past its last sample the series repeats itself scaled by the
    wrap-around multiplier: a day one whole file length after a day of
    the file has that day's price times the multiplier. *)
Theorem series_repeats_scaled (file_ : list double) (f : MarketFund.t)
    (year later : double) :
  let size := MarketFund.data_size file_ in
  let before := floor (year * (36525 # 100) + MarketFund.day_offset_ f) in
  (2 * size < size_max)%Z ->
  (0 <= before < size)%Z ->
  floor (later * (36525 # 100) + MarketFund.day_offset_ f)
    = (before + size)%Z ->
  exists x,
    file_ !! Z.to_nat before = Some x
    /\ MarketFund.lookup file_ f year = Ok x
    /\ MarketFund.lookup file_ f later
       = Ok (MarketFund.wrap_around_multiplier_ f * x).
Proof.
  intros size before Hsize Hbefore Hlater.
  assert (Hyear : MarketFund.lookup file_ f year = read file_ before).
  { rewrite (lookup_by_index file_ f year before eq_refl) by (fold size; lia).
    fold size. rewrite (proj2 (Z.ltb_lt _ _) (proj2 Hbefore)). reflexivity. }
  assert (Hwrapped : MarketFund.lookup file_ f later =
            x ← read file_ before;
            Ok (MarketFund.wrap_around_multiplier_ f * x)).
  { rewrite (lookup_by_index file_ f later (before + size) Hlater)
      by (fold size; lia).
    fold size.
    rewrite (proj2 (Z.ltb_ge _ _)) by lia.
    rewrite (proj2 (Z.leb_gt _ _)) by lia.
    replace ((before + size) mod size)%Z with before; [reflexivity|].
    rewrite Z.add_mod by lia. rewrite Z.mod_same by lia.
    rewrite Z.add_0_r, Z.mod_mod by lia. symmetry. apply Z.mod_small. lia. }
  destruct (read_in_range file_ before) as (x & Hx & Hread).
  { fold (MarketFund.data_size file_). fold size. lia. }
  exists x. rewrite Hyear, Hwrapped, Hread.
  split; [exact Hx|]. split; reflexivity.
Qed.

Lemma series_repeats_scaled_witness :
  let file_ := [10; 11; 12; 20] in
  let f :=
    MarketFund.Build
      (FundBase.Build (ModelBase.Build "market" 0 infinity 0) ∅ 0 100) 2 0 in
  exists x,
    file_ !! 1%nat = Some x
    /\ MarketFund.lookup file_ f (4 # 1461) = Ok x
    /\ MarketFund.lookup file_ f (20 # 1461) = Ok (2 * x).
Proof.
  intros file_ f.
  apply (series_repeats_scaled file_ f (4 # 1461) (20 # 1461)).
  - vm_compute. reflexivity.
  - vm_compute. split; [discriminate | reflexivity].
  - vm_compute. reflexivity.
Defined.

(** ** The spending loop *)

Lemma for_each_seq_total {A} (P : nat -> A -> Prop)
    (body : nat -> A -> result A) (n : nat) :
  forall (k : nat) (a : A),
  P k a ->
  (forall i a, (k <= i < k + n)%nat -> P i a ->
               exists a', body i a = Ok a' /\ P (S i) a') ->
  exists a', for_each body (seq k n) a = Ok a' /\ P (k + n)%nat a'.
Proof.
  induction n as [|n IH]; intros k a Ha Hbody.
  - exists a. rewrite Nat.add_0_r. split; [reflexivity | exact Ha].
  - cbn [seq for_each].
    destruct (Hbody k a ltac:(lia) Ha) as (a1 & Hstep & Ha1).
    rewrite Hstep. cbn [mbind result_bind].
    destruct (IH (S k) a1 Ha1) as (a2 & Hrest & Ha2).
    + intros i a' Hi. apply Hbody. lia.
    + exists a2. split; [exact Hrest|].
      replace (k + S n)%nat with (S k + n)%nat by lia. exact Ha2.
Qed.

Lemma for_each_seq_partial {A} (P : nat -> A -> Prop)
    (body : nat -> A -> result A) (n : nat) :
  forall (k : nat) (a a' : A),
  P k a ->
  (forall i a a', (k <= i < k + n)%nat -> P i a -> body i a = Ok a' ->
                  P (S i) a') ->
  for_each body (seq k n) a = Ok a' ->
  P (k + n)%nat a'.
Proof.
  induction n as [|n IH]; intros k a a' Ha Hbody.
  - cbn [seq for_each]. intros [= <-]. rewrite Nat.add_0_r. exact Ha.
  - cbn [seq for_each].
    destruct (body k a) as [a1|e] eqn:Hstep; [|discriminate].
    cbn [mbind result_bind]. intros Hrest.
    replace (k + S n)%nat with (S k + n)%nat by lia.
    apply (IH (S k) a1 a').
    + exact (Hbody k a a1 ltac:(lia) Ha Hstep).
    + intros i b b' Hi. apply Hbody. lia.
    + exact Hrest.
Qed.

Lemma read_at {A} (v : list A) (i : nat) (x : A) :
  v !! i = Some x -> read v (Z.of_nat i) = Ok x.
Proof.
  intros Hx. unfold read. rewrite Nat2Z.id, Hx.
  destruct (0 <=? Z.of_nat i)%Z eqn:E; [reflexivity|].
  apply Z.leb_gt in E. lia.
Qed.

(** What one [sell] does to a fund, as the loop needs it. *)
Lemma fund_sell_facts (f : Fund.t) (amount : double) :
  Fund.amount (Fund.sell f amount).2
    == Fund.amount f - (Fund.sell f amount).1
  /\ FundBase.base (Fund.base (Fund.sell f amount).2)
     = FundBase.base (Fund.base f)
  /\ (0 <= amount -> 0 <= Fund.amount f ->
      0 <= (Fund.sell f amount).1 <= amount
      /\ 0 <= Fund.amount (Fund.sell f amount).2)
  /\ (0 <= amount ->
      ModelBase.start (FundBase.base (Fund.base f))
        <= ModelBase.year (FundBase.base (Fund.base f)) ->
      0 < amount - (Fund.sell f amount).1 ->
      Fund.amount (Fund.sell f amount).2 == 0).
Proof.
  unfold Fund.sell, Fund.amount, FundBase.amount, FundBase.sell.
  destruct f as [f | f]; cbn [Fund.base];
    destruct (ltb _ _) eqn:E1; cbn [fst snd Fund.base Fund.with_base
      FundBase.base FundBase.amount_ FixedRateFund.base MarketFund.base];
    try (destruct (ltb amount 0) eqn:E2);
    try (destruct (geb _ amount) eqn:E3);
    cbn [fst snd Fund.base Fund.with_base FundBase.base FundBase.amount_
         FixedRateFund.base MarketFund.base];
    order_facts; repeat split; try reflexivity; try ring; intros; lra.
Qed.

Lemma spend_body_at (funds : list Fund.t) (i : nat) (f : Fund.t)
    (to_spend : double) :
  funds !! i = Some f ->
  Main.spend_body i (funds, to_spend) =
    Ok (<[i := (Fund.sell f to_spend).2]> funds,
        to_spend - (Fund.sell f to_spend).1).
Proof.
  intros Hf. unfold Main.spend_body. rewrite (read_at funds i f Hf).
  cbn [mbind result_bind]. destruct (Fund.sell f to_spend). reflexivity.
Qed.

(** X10: the spending loop never fails and keeps the list of funds at
    its length; when the request and the balances are not negative, what
    is left of the request is between zero and the request and no
    balance becomes negative. *)
Theorem spend_runs_within_bounds (funds : list Fund.t) (to_spend : double) :
  exists funds' left,
    Main.spend funds to_spend = Ok (funds', left)
    /\ length funds' = length funds
    /\ (0 <= to_spend ->
        Forall (fun f => 0 <= Fund.amount f) funds ->
        0 <= left <= to_spend
        /\ Forall (fun f => 0 <= Fund.amount f) funds').
Proof.
  destruct (for_each_seq_total
              (fun (_ : nat) (st : list Fund.t * double) =>
                 length st.1 = length funds
                 /\ (0 <= to_spend ->
                     Forall (fun f => 0 <= Fund.amount f) funds ->
                     0 <= st.2 <= to_spend
                     /\ Forall (fun f => 0 <= Fund.amount f) st.1))
              Main.spend_body (length funds) 0 (funds, to_spend))
    as ([funds' left] & Hrun & Hlen & Hbounds).
  - cbn [fst snd]. split; [reflexivity|].
    intros H0 Hall. split; [lra | exact Hall].
  - intros i [fs ts] Hi (Hlen & Hbounds). cbn [fst snd] in *.
    destruct (lookup_lt_is_Some_2 fs i) as [f Hf]; [lia|].
    rewrite (spend_body_at fs i f ts Hf). eexists. split; [reflexivity|].
    cbn [fst snd].
    destruct (fund_sell_facts f ts) as (Hamount & _ & Hsafe & _).
    split; [rewrite length_insert; exact Hlen|].
    intros H0 Hall. destruct (Hbounds H0 Hall) as [Hts Hfs].
    assert (Hf0 : 0 <= Fund.amount f)
      by (exact (proj1 (Forall_lookup _ fs) Hfs i f Hf)).
    destruct (Hsafe ltac:(lra) Hf0) as [Hx Hrest].
    split; [lra|]. apply Forall_insert; assumption.
  - exists funds', left. cbn [fst snd] in *.
    repeat split; try assumption; apply Hbounds; assumption.
Qed.

(** X11: when the request and the balances are not negative and the
    spending loop leaves part of the request unpaid, every fund that is
    active (its year is not before its start) has been emptied: the
    bankruptcy test fires only then. *)
Theorem unpaid_only_when_drained (funds funds' : list Fund.t)
    (to_spend left : double) :
  0 <= to_spend ->
  Forall (fun f => 0 <= Fund.amount f) funds ->
  Main.spend funds to_spend = Ok (funds', left) ->
  0 < left ->
  Forall (fun f =>
            ModelBase.start (FundBase.base (Fund.base f))
              <= ModelBase.year (FundBase.base (Fund.base f)) ->
            Fund.amount f == 0) funds'.
Proof.
  intros Hspend Hall Hrun Hleft.
  pose proof (for_each_seq_partial
                (fun (k : nat) (st : list Fund.t * double) =>
                   length st.1 = length funds
                   /\ 0 <= st.2
                   /\ Forall (fun f => 0 <= Fund.amount f) st.1
                   /\ (0 < st.2 ->
                       forall j f, (j < k)%nat -> st.1 !! j = Some f ->
                       ModelBase.start (FundBase.base (Fund.base f))
                         <= ModelBase.year (FundBase.base (Fund.base f)) ->
                       Fund.amount f == 0))
                Main.spend_body (length funds) 0 (funds, to_spend)
                (funds', left)) as Hloop.
  cbn [fst snd] in Hloop.
  destruct Hloop as (Hlen & _ & _ & Hdrained).
  - repeat split; try assumption. intros _ j f Hj. lia.
  - intros i [fs ts] [fs' ts'] Hi (Hlen & Hts & Hfs & Hdone) Hbody.
    cbn [fst snd] in *.
    destruct (lookup_lt_is_Some_2 fs i) as [f Hf]; [lia|].
    rewrite (spend_body_at fs i f ts Hf) in Hbody.
    injection Hbody as <- <-.
    destruct (fund_sell_facts f ts) as (Hamount & Hbase & Hsafe & Hempty).
    assert (Hf0 : 0 <= Fund.amount f)
      by (exact (proj1 (Forall_lookup _ fs) Hfs i f Hf)).
    destruct (Hsafe Hts Hf0) as [Hx Hrest].
    split; [rewrite length_insert; exact Hlen|].
    split; [lra|]. split; [apply Forall_insert; assumption|].
    intros Hpos j g Hj Hg Hactive.
    destruct (decide (j = i)) as [-> | Hne].
    + rewrite list_lookup_insert_eq in Hg by lia. injection Hg as <-.
      apply Hempty; try assumption. rewrite <- Hbase. exact Hactive.
    + rewrite list_lookup_insert_ne in Hg by congruence.
      apply (Hdone ltac:(lra) j g); [lia | exact Hg | exact Hactive].
  - exact Hrun.
  - apply Forall_lookup. intros j f Hf. apply (Hdrained Hleft j f).
    + apply lookup_lt_Some in Hf. lia.
    + exact Hf.
Qed.

Lemma unpaid_only_when_drained_witness :
  let funds := [Household.fund "market" 300; Household.fund "retirement" 200] in
  exists funds' left,
    Main.spend funds 1000 = Ok (funds', left)
    /\ 0 < left
    /\ Forall (fun f =>
                 ModelBase.start (FundBase.base (Fund.base f))
                   <= ModelBase.year (FundBase.base (Fund.base f)) ->
                 Fund.amount f == 0) funds'.
Proof.
  intros funds.
  assert (Hrun : exists funds' left,
            Main.spend funds 1000 = Ok (funds', left) /\ 0 < left)
    by (vm_compute; eexists; eexists; split; reflexivity).
  destruct Hrun as (funds' & left & Hrun & Hleft).
  exists funds', left. split; [exact Hrun|]. split; [exact Hleft|].
  apply (unpaid_only_when_drained funds funds' 1000 left).
  - discriminate.
  - repeat constructor; discriminate.
  - exact Hrun.
  - exact Hleft.
Defined.

Lemma spend_runs_within_bounds_witness :
  let funds := [Household.fund "market" 300; Household.fund "retirement" 900] in
  exists funds' left,
    Main.spend funds 1000 = Ok (funds', left)
    /\ 0 <= left <= 1000.
Proof.
  intros funds.
  destruct (spend_runs_within_bounds funds 1000)
    as (funds' & left & Hrun & _ & Hbounds).
  exists funds', left. split; [exact Hrun|].
  apply Hbounds.
  - discriminate.
  - repeat constructor; discriminate.
Defined.

(** ** The investing loop *)

(** A fund whose yearly totals are within its limit, when it has one. *)
Local Abbreviation within_limits b :=
  (0 < FundBase.contribution_limit_ b ->
   forall k, FundBase.contributed b k <= FundBase.contribution_limit_ b).

Lemma buy_offer_bounds (b b' : FundBase.t) (offer x : double) :
  within_limits b ->
  0 <= offer ->
  FundBase.buy b offer = Ok (x, b') ->
  0 <= x <= offer
  /\ FundBase.contribution_limit_ b' = FundBase.contribution_limit_ b
  /\ within_limits b'
  /\ (FundBase.contribution_limit_ b <= 0 -> x = offer).
Proof.
  intros Hsane Hoffer Hbuy.
  destruct (Qlt_le_dec 0 (FundBase.contribution_limit_ b)) as [Hpos | Hnone].
  - destruct (buy_contributed b b' offer x Hpos (Hsane Hpos) Hbuy)
      as (Hlimit & Hsane' & _).
    unfold FundBase.buy in Hbuy.
    rewrite (proj2 (ltb_ge _ _) Hoffer), (proj2 (gtb_lt _ _) Hpos) in Hbuy.
    destruct (to_size_t _) as [k|e]; [|discriminate].
    cbn [mbind result_bind] in Hbuy. injection Hbuy as <- _.
    specialize (Hsane Hpos k).
    split; [|split; [exact Hlimit | split]].
    + destruct (std_min_spec offer (FundBase.contribution_limit_ b -
                                    FundBase.contributed b k))
        as [[? ->] | [? ->]]; lra.
    + intros _. exact Hsane'.
    + intros Hnone. exfalso. lra.
  - unfold FundBase.buy in Hbuy.
    rewrite (proj2 (ltb_ge _ _) Hoffer), (proj2 (gtb_le _ _) Hnone) in Hbuy.
    injection Hbuy as <- <-. cbn [FundBase.contribution_limit_].
    split; [lra|]. split; [reflexivity|]. split; [|reflexivity].
    intros Hpos. exfalso. lra.
Qed.

Lemma fund_base_with_base (f : Fund.t) (b : FundBase.t) :
  Fund.base (Fund.with_base f b) = b.
Proof. destruct f; reflexivity. Qed.

(** What one pass of the investing loop does at the fund it reaches. *)
Lemma invest_body_at (exp : double -> double) (file_ : list double)
    (year : double) (i : nat) (funds funds' : list Fund.t)
    (to_invest to_invest' : double) (noted noted' : list double)
    (f : Fund.t) :
  funds !! (length funds - 1 - i)%nat = Some f ->
  Main.invest_body exp file_ year i (funds, to_invest, noted)
    = Ok (funds', to_invest', noted') ->
  exists grown b1 x b2,
    FundBase.update_to (Fund.update_amount exp file_ f) (Fund.base f) year
      = Ok (grown, b1)
    /\ FundBase.buy b1 to_invest = Ok (x, b2)
    /\ funds' = <[(length funds - 1 - i)%nat := Fund.with_base f b2]> funds
    /\ to_invest' = to_invest - x.
Proof.
  intros Hf. unfold Main.invest_body.
  rewrite (read_at funds _ f Hf). cbn [mbind result_bind].
  unfold Fund.update_to.
  destruct (FundBase.update_to _ (Fund.base f) year) as [[grown b1]|e]
    eqn:Hgrow; [|discriminate].
  cbn [mbind result_bind]. unfold Fund.buy.
  rewrite fund_base_with_base.
  destruct (FundBase.buy b1 to_invest) as [[x b2]|e] eqn:Hbuy;
    [|discriminate].
  cbn [mbind result_bind].
  destruct (store noted _ x) as [noted1|e]; [|discriminate].
  cbn [mbind result_bind]. intros [= <- <- <-].
  exists grown, b1, x, b2.
  split; [reflexivity|]. split; [exact Hbuy|]. split; [|reflexivity].
  destruct f; reflexivity.
Qed.

Lemma update_to_keeps_limits
    (update_amount : ModelBase.t -> double -> double -> result double)
    (b b1 : FundBase.t) (year grown : double) :
  FundBase.update_to update_amount b year = Ok (grown, b1) ->
  FundBase.contributed_ b1 = FundBase.contributed_ b
  /\ FundBase.contribution_limit_ b1 = FundBase.contribution_limit_ b.
Proof.
  unfold FundBase.update_to. cbn [ModelBase.set_year].
  destruct (update_amount _ _ _) as [a|e]; [|discriminate].
  cbn [mbind result_bind]. intros [= <- <-]. split; reflexivity.
Qed.

(** X12: when the surplus is not negative and every fund's yearly totals
    are within its limit, an investing loop that runs to its end leaves
    between nothing and the whole surplus unabsorbed, and leaves nothing
    at all when some fund of the list has no limit. *)
Theorem surplus_left_over (exp : double -> double) (file_ : list double)
    (year : double) (funds funds' : list Fund.t) (to_invest left : double)
    (noted noted' : list double) :
  0 <= to_invest ->
  Forall (fun f => within_limits (Fund.base f)) funds ->
  Main.invest exp file_ year funds to_invest noted
    = Ok (funds', left, noted') ->
  0 <= left <= to_invest
  /\ length funds' = length funds
  /\ (Exists (fun f => FundBase.contribution_limit_ (Fund.base f) <= 0) funds ->
      left == 0).
Proof.
  intros Hsurplus Hsane Hrun. unfold Main.invest in Hrun.
  pose proof (for_each_seq_partial
                (fun (k : nat) (st : list Fund.t * double * list double) =>
                   length st.1.1 = length funds
                   /\ 0 <= st.1.2 <= to_invest
                   /\ Forall (fun f => within_limits (Fund.base f)) st.1.1
                   /\ (forall j f f0,
                         st.1.1 !! j = Some f -> funds !! j = Some f0 ->
                         FundBase.contribution_limit_ (Fund.base f)
                         = FundBase.contribution_limit_ (Fund.base f0))
                   /\ (forall u f0,
                         (length funds - k <= u)%nat ->
                         funds !! u = Some f0 ->
                         FundBase.contribution_limit_ (Fund.base f0) <= 0 ->
                         st.1.2 == 0))
                (Main.invest_body exp file_ year) (length funds) 0
                (funds, to_invest, noted) (funds', left, noted')) as Hloop.
  cbn [fst snd] in Hloop.
  destruct Hloop as (Hlen & Hleft & Hsane' & _ & Hzero).
  - split; [reflexivity|]. split; [lra|]. split; [exact Hsane|]. split.
    + intros j f f0 Hf Hf0. congruence.
    + intros u f0 Hu Hf0. apply lookup_lt_Some in Hf0. lia.
  - intros k [[fs t] mc] [[fs' t'] mc'] Hk
      (Hlen & Ht & Hfs & Hlimits & Hzero) Hbody.
    cbn [fst snd] in *.
    destruct (lookup_lt_is_Some_2 fs (length fs - 1 - k)) as [f Hf]; [lia|].
    destruct (invest_body_at exp file_ year k fs fs' t t' mc mc' f Hf Hbody)
      as (grown & b1 & x & b2 & Hgrow & Hbuy & -> & ->).
    destruct (update_to_keeps_limits _ _ _ _ _ Hgrow) as [Hc1 Hl1].
    assert (Hsane1 : within_limits b1).
    { intros Hpos key. unfold FundBase.contributed. rewrite Hc1, Hl1.
      rewrite Hl1 in Hpos.
      exact (proj1 (Forall_lookup _ fs) Hfs _ f Hf Hpos key). }
    destruct (buy_offer_bounds b1 b2 t x Hsane1 (proj1 Ht) Hbuy)
      as (Hx & Hl2 & Hsane2 & Hall).
    split; [rewrite length_insert; exact Hlen|].
    split; [lra|]. split.
    { apply Forall_insert; [exact Hfs|].
      rewrite fund_base_with_base. exact Hsane2. }
    split.
    + intros j g g0 Hg Hg0.
      destruct (decide (j = (length fs - 1 - k)%nat)) as [-> | Hne].
      * rewrite list_lookup_insert_eq in Hg by lia. injection Hg as <-.
        rewrite fund_base_with_base, Hl2, Hl1.
        exact (Hlimits _ f g0 Hf Hg0).
      * rewrite list_lookup_insert_ne in Hg by congruence.
        exact (Hlimits j g g0 Hg Hg0).
    + intros u f0 Hu Hf0 Hnone.
      destruct (decide (u = (length fs - 1 - k)%nat)) as [-> | Hne].
      * rewrite <- (Hlimits _ f f0 Hf Hf0), <- Hl1 in Hnone.
        rewrite (Hall Hnone). ring.
      * assert (Hbefore : t == 0).
        { apply (Hzero u f0); [|exact Hf0 | exact Hnone].
          apply lookup_lt_Some in Hf0. lia. }
        lra.
  - exact Hrun.
  - split; [exact Hleft|]. split; [exact Hlen|].
    intros Hsome. apply Exists_exists in Hsome as (f0 & Hin & Hnone).
    apply list_elem_of_lookup in Hin as [u Hu].
    apply (Hzero u f0); [lia | exact Hu | exact Hnone].
Qed.

Lemma surplus_left_over_witness :
  let funds := Main.market_models Household.surplus in
  exists funds' left noted',
    Main.invest (fun _ => 1) Household.file_ (1 # 52) funds 1000 [0; 0]
      = Ok (funds', left, noted')
    /\ 0 <= left <= 1000
    /\ left == 0.
Proof.
  intros funds.
  assert (Hrun : exists funds' left noted',
            Main.invest (fun _ => 1) Household.file_ (1 # 52) funds 1000
              [0; 0] = Ok (funds', left, noted'))
    by (vm_compute; eexists; eexists; eexists; reflexivity).
  destruct Hrun as (funds' & left & noted' & Hrun).
  exists funds', left, noted'. split; [exact Hrun|].
  destruct (surplus_left_over (fun _ => 1) Household.file_ (1 # 52)
              funds funds' 1000 left [0; 0] noted')
    as (Hleft & _ & Hzero).
  - discriminate.
  - repeat constructor; intros Hpos; exfalso; revert Hpos; vm_compute;
      discriminate.
  - exact Hrun.
  - split; [exact Hleft|]. apply Hzero. left. vm_compute. discriminate.
Defined.

(** ** The retirement snapshot *)

Lemma snapshot_from (funds : list Fund.t) :
  forall w : double,
  exists v, Main.snapshot funds (Some w) = Some v
            /\ v == w + sum (map Fund.amount funds).
Proof.
  unfold Main.snapshot.
  induction funds as [|f funds IH]; intros w; cbn [fold_left map].
  - exists w. split; [reflexivity | unfold sum; simpl; ring].
  - destruct (IH (default 0 (Some w) + Fund.amount f)) as (v & Hv & Hsum).
    exists v. split; [exact Hv|]. rewrite Hsum.
    cbn [default from_option id sum fold_right]. unfold sum. ring.
Qed.

Lemma cash_flow_snapshot (exp : double -> double) (file_ : list double)
    (verbose : bool) (r r1 : Main.Run) (year left : double) :
  Main.cash_flow exp file_ verbose r year = Ok (r1, left) ->
  Main.retirement_value r1 =
    if eqb (Main.update_all exp (Main.income_models r) year 0).1 0
       && negb (bool_decide (is_Some (Main.retirement_value r)))
    then Main.snapshot (Main.market_models r) (Main.retirement_value r)
    else Main.retirement_value r.
Proof.
  unfold Main.cash_flow.
  destruct (Main.update_all exp (Main.income_models r) year 0)
    as [total_income incomes].
  destruct (Main.update_all exp (Main.expense_models r) year 0)
    as [total_expenses expenses].
  destruct (Main.invest _ _ _ _ _ _) as [[[funds to_invest] contributed]|e];
    [|discriminate]. cbn [mbind result_bind].
  destruct (Main.spend _ _) as [[funds' to_spend]|e]; [|discriminate].
  cbn [mbind result_bind]. intros [= <- _]. reflexivity.
Qed.

Lemma step_snapshot (exp : double -> double) (file_ : list double)
    (verbose : bool) (r r' : Main.Run) (year : double) :
  Main.step exp file_ verbose r year = Ok r' ->
  Main.retirement_value r' =
    if eqb (Main.update_all exp (Main.income_models r) year 0).1 0
       && negb (bool_decide (is_Some (Main.retirement_value r)))
    then Main.snapshot (Main.market_models r) (Main.retirement_value r)
    else Main.retirement_value r.
Proof.
  unfold Main.step.
  destruct (Main.cash_flow exp file_ verbose r year) as [[r1 left]|e] eqn:Hflow;
    [|discriminate].
  cbn [mbind result_bind]. intros [= <-]. cbn [Main.retirement_value].
  exact (cash_flow_snapshot exp file_ verbose r r1 year left Hflow).
Qed.

(** X13: the retirement snapshot is taken at most once: once a run holds a
    value, every later step and the rest of the weekly loop leave that
    value as it is. *)
Theorem retirement_value_is_kept (exp : double -> double)
    (file_ : list double) (verbose : bool) (r : Main.Run) (v : double) :
  Main.retirement_value r = Some v ->
  (forall year r',
     Main.step exp file_ verbose r year = Ok r' ->
     Main.retirement_value r' = Some v)
  /\ (forall fuel years i r',
      Main.for_weeks
        (fun i r => Main.step exp file_ verbose r (inject_Z i * Main.PERIOD))
        fuel years i r = Some (Ok r') ->
      Main.retirement_value r' = Some v).
Proof.
  intros Hv.
  assert (Hstep : forall r0 year r',
            Main.retirement_value r0 = Some v ->
            Main.step exp file_ verbose r0 year = Ok r' ->
            Main.retirement_value r' = Some v).
  { intros r0 year r' H0 Hrun.
    rewrite (step_snapshot exp file_ verbose r0 r' year Hrun), H0.
    rewrite andb_false_r. reflexivity. }
  split; [intros year r'; apply Hstep; exact Hv|].
  intros fuel. revert r Hv.
  induction fuel as [|fuel IH]; intros r Hv years i r'; simpl; [discriminate|].
  destruct (ltb (inject_Z i) (years / Main.PERIOD)).
  - destruct (Main.step exp file_ verbose r (inject_Z i * Main.PERIOD))
      as [r1|e] eqn:Hrun; [|discriminate].
    apply IH. exact (Hstep r _ r1 Hv Hrun).
  - intros [= <-]. exact Hv.
Qed.

(** X14: a step of a run that holds no snapshot yet takes one exactly when
    the step's total income is zero and the run has at least one fund; the
    value is the sum of the fund balances as they were before the step. *)
Theorem retirement_value_taken (exp : double -> double)
    (file_ : list double) (verbose : bool) (r r' : Main.Run)
    (year : double) :
  Main.retirement_value r = None ->
  Main.step exp file_ verbose r year = Ok r' ->
  let income := (Main.update_all exp (Main.income_models r) year 0).1 in
  (income == 0 -> Main.market_models r <> [] ->
   exists v, Main.retirement_value r' = Some v
             /\ v == sum (map Fund.amount (Main.market_models r)))
  /\ (~ income == 0 \/ Main.market_models r = [] ->
      Main.retirement_value r' = None).
Proof.
  intros Hnone Hrun income.
  rewrite (step_snapshot exp file_ verbose r r' year Hrun), Hnone.
  fold income. cbn [negb andb]. rewrite andb_true_r. split.
  - intros Hzero Hfunds.
    rewrite (proj2 (Qeq_bool_iff income 0) Hzero : eqb income 0 = true).
    destruct (Main.market_models r) as [|f funds]; [congruence|].
    unfold Main.snapshot. cbn [fold_left default from_option].
    destruct (snapshot_from funds (0 + Fund.amount f)) as (v & Hv & Hsum).
    exists v. split; [exact Hv|]. rewrite Hsum.
    cbn [map sum fold_right]. unfold sum. ring.
  - intros [Hincome | Hfunds].
    + destruct (eqb income 0) eqn:E; [|reflexivity].
      exfalso. apply Hincome. apply Qeq_bool_iff. exact E.
    + rewrite Hfunds. destruct (eqb income 0); reflexivity.
Qed.

Lemma retirement_value_taken_witness :
  exists r' v,
    Main.step (fun _ => 1) Household.file_ true Household.deficit (1 # 52)
      = Ok r'
    /\ Main.retirement_value r' = Some v
    /\ v == sum (map Fund.amount (Main.market_models Household.deficit)).
Proof.
  assert (Hrun : exists r',
            Main.step (fun _ => 1) Household.file_ true Household.deficit
              (1 # 52) = Ok r')
    by (vm_compute; eexists; reflexivity).
  destruct Hrun as (r' & Hrun).
  destruct (retirement_value_taken (fun _ => 1) Household.file_ true
              Household.deficit r' (1 # 52) eq_refl Hrun) as [Htaken _].
  destruct Htaken as (v & Hv & Hsum).
  - vm_compute. reflexivity.
  - discriminate.
  - exists r', v. exact (conj Hrun (conj Hv Hsum)).
Defined.

Lemma retirement_value_is_kept_witness :
  exists r1 r2 v,
    Main.step (fun _ => 1) Household.file_ true Household.deficit
      (inject_Z 1 * Main.PERIOD) = Ok r1
    /\ Main.retirement_value r1 = Some v
    /\ Main.step (fun _ => 1) Household.file_ true r1
         (inject_Z 2 * Main.PERIOD) = Ok r2
    /\ Main.retirement_value r2 = Some v.
Proof.
  assert (Hrun : exists r2,
            for_each
              (fun i r => Main.step (fun _ => 1) Household.file_ true r
                            (inject_Z i * Main.PERIOD))
              [2%Z]
              (match Main.step (fun _ => 1) Household.file_ true
                       Household.deficit (inject_Z 1 * Main.PERIOD) with
               | Ok r1 => r1
               | Fail _ => Household.deficit
               end) = Ok r2)
    by (vm_compute; eexists; reflexivity).
  destruct Hrun as (r2 & H2).
  destruct (Main.step (fun _ => 1) Household.file_ true Household.deficit
              (inject_Z 1 * Main.PERIOD)) as [r1|e] eqn:H1.
  - assert (Hv : exists v, Main.retirement_value r1 = Some v).
    { assert (Hsome : is_Some
                (match Main.step (fun _ => 1) Household.file_ true
                         Household.deficit (inject_Z 1 * Main.PERIOD) with
                 | Ok r1 => Main.retirement_value r1
                 | Fail _ => None
                 end)) by (vm_compute; eexists; reflexivity).
      rewrite H1 in Hsome. destruct Hsome as [v Hv]. exists v. exact Hv. }
    destruct Hv as [v Hv]. exists r1, r2, v.
    cbn [for_each mbind result_bind] in H2.
    destruct (Main.step (fun _ => 1) Household.file_ true r1
                (inject_Z 2 * Main.PERIOD)) as [r2'|e] eqn:Hstep2;
      [|discriminate H2].
    injection H2 as ->.
    split; [reflexivity|]. split; [exact Hv|]. split; [reflexivity|].
    destruct (retirement_value_is_kept (fun _ => 1) Household.file_ true r1 v
                Hv) as [Hstep _].
    exact (Hstep _ r2 Hstep2).
  - exfalso.
    assert (Hok : match Main.step (fun _ => 1) Household.file_ true
                          Household.deficit (inject_Z 1 * Main.PERIOD) with
                  | Ok _ => True
                  | Fail _ => False
                  end) by (vm_compute; exact I).
    rewrite H1 in Hok. exact Hok.
Defined.

(** ** Steps that do not complete *)

Lemma cash_flow_fails_with_invest (exp : double -> double)
    (file_ : list double) (verbose : bool) (r : Main.Run) (year : double)
    (e : failure) :
  (forall to_invest noted,
     Main.invest exp file_ year (Main.market_models r) to_invest noted
     = Fail e) ->
  Main.step exp file_ verbose r year = Fail e.
Proof.
  intros Hinvest. unfold Main.step, Main.cash_flow.
  destruct (Main.update_all exp (Main.income_models r) year 0)
    as [total_income incomes].
  destruct (Main.update_all exp (Main.expense_models r) year 0)
    as [total_expenses expenses].
  rewrite Hinvest. reflexivity.
Qed.

Lemma market_update_fails (exp : double -> double) (file_ : list double)
    (m : MarketFund.t) (year : double) (e : failure) :
  MarketFund.lookup file_ m
    (year + (year - ModelBase.year_ (FundBase.base (MarketFund.base m))))
  = Fail e ->
  Fund.update_to exp file_ (Fund.market m) year = Fail e.
Proof.
  intros Hlookup. unfold Fund.update_to, FundBase.update_to.
  cbn [ModelBase.set_year Fund.base Fund.update_amount].
  unfold MarketFund.update_amount.
  cbn [ModelBase.year ModelBase.year_].
  rewrite Hlookup. reflexivity.
Qed.

(** X15: growing a market fund for the step that ends at [year] reads the
    price one step further on, at [year + dt].  When that look-up fails
    for the last fund of the list, the whole step fails in the same way;
    in particular it throws "Invalid after index." as soon as the day of
    [year + dt] is at least twice the sample count, whatever the day of
    [year] is. *)
Theorem step_throws_one_step_ahead (exp : double -> double)
    (file_ : list double) (verbose : bool) (r : Main.Run) (year : double)
    (front : list Fund.t) (m : MarketFund.t) :
  Main.market_models r = front ++ [Fund.market m] ->
  let ahead :=
    year + (year - ModelBase.year_ (FundBase.base (MarketFund.base m))) in
  (forall e,
     MarketFund.lookup file_ m ahead = Fail e ->
     Main.step exp file_ verbose r year = Fail e)
  /\ ((2 * MarketFund.data_size file_
       <= floor (ahead * (36525 # 100) + MarketFund.day_offset_ m)
       < size_max)%Z ->
      (2 * MarketFund.data_size file_ < size_max)%Z ->
      Main.step exp file_ verbose r year
      = Fail (runtime_error "Invalid after index.")).
Proof.
  intros Hfunds ahead.
  assert (Hfail : forall e,
            MarketFund.lookup file_ m ahead = Fail e ->
            Main.step exp file_ verbose r year = Fail e).
  { intros e Hlookup. apply cash_flow_fails_with_invest.
    intros to_invest noted.
    rewrite Hfunds, invest_starts_at_last_fund.
    rewrite (market_update_fails exp file_ m year e Hlookup). reflexivity. }
  split; [exact Hfail|].
  intros Hday Hsize. apply Hfail.
  rewrite (lookup_by_index file_ m ahead _ eq_refl) by
    (try assumption; unfold MarketFund.data_size in *; lia).
  rewrite (proj2 (Z.ltb_ge _ _)) by (unfold MarketFund.data_size in *; lia).
  rewrite (proj2 (Z.leb_le _ _)) by lia. reflexivity.
Qed.

Lemma step_throws_one_step_ahead_witness :
  (exists x,
     MarketFund.lookup Household.file_
       (MarketFund.Build
          (FundBase.Build (ModelBase.Build "retirement" 0 infinity 0) ∅ 0 0)
          1 60)
       (1 # 4) = Ok x)
  /\ Main.step (fun _ => 1) Household.file_ true Household.surplus (1 # 4)
     = Fail (runtime_error "Invalid after index.").
Proof.
  split; [vm_compute; eexists; reflexivity|].
  destruct (step_throws_one_step_ahead (fun _ => 1) Household.file_ true
              Household.surplus (1 # 4)
              [Fund.set_offset_percent Household.file_
                 (Household.fund "market" 0) (1 # 2)]
              (MarketFund.Build
                 (FundBase.Build (ModelBase.Build "retirement" 0 infinity 0)
                    ∅ 0 0) 1 ((1 # 2) * inject_Z 120)))
    as [_ Hthrows].
  - reflexivity.
  - apply Hthrows.
    + vm_compute. split; [discriminate | reflexivity].
    + vm_compute. reflexivity.
Defined.

Lemma buy_fails_undefined (b : FundBase.t) (amount : double) (e : failure) :
  FundBase.buy b amount = Fail e -> e = undefined_behaviour.
Proof.
  unfold FundBase.buy. destruct (ltb amount 0); [discriminate|].
  destruct (gtb _ 0); [|discriminate].
  unfold to_size_t. destruct (_ && _); [discriminate|].
  cbn [mbind result_bind]. congruence.
Qed.

(** X16: with [verbose] off the vector [market_contributed] is never
    resized, and the investing loop stores into it all the same.  In a run
    with at least one fund no weekly step completes: when growing the last
    fund succeeds, the behaviour of the step is undefined. *)
Theorem summary_step_is_undefined (exp : double -> double)
    (file_ : list double) (r : Main.Run) (year : double)
    (front : list Fund.t) (last : Fund.t) :
  Main.market_models r = front ++ [last] ->
  (exists e, Main.step exp file_ false r year = Fail e)
  /\ (forall grown f,
      Fund.update_to exp file_ last year = Ok (grown, f) ->
      Main.step exp file_ false r year = Fail undefined_behaviour).
Proof.
  intros Hfunds.
  assert (Hstep : forall e,
            (forall to_invest,
               Main.invest exp file_ year (Main.market_models r) to_invest []
               = Fail e) ->
            Main.step exp file_ false r year = Fail e).
  { intros e Hinvest. unfold Main.step, Main.cash_flow.
    destruct (Main.update_all exp (Main.income_models r) year 0)
      as [total_income incomes].
    destruct (Main.update_all exp (Main.expense_models r) year 0)
      as [total_expenses expenses].
    rewrite Hinvest. reflexivity. }
  assert (Hgrown : forall grown f,
            Fund.update_to exp file_ last year = Ok (grown, f) ->
            Main.step exp file_ false r year = Fail undefined_behaviour).
  { intros grown f Hgrow. apply Hstep. intros to_invest.
    rewrite Hfunds, invest_starts_at_last_fund, Hgrow.
    cbn [mbind result_bind]. unfold Fund.buy.
    destruct (FundBase.buy (Fund.base f) to_invest) as [[x b]|e] eqn:Hbuy.
    - reflexivity.
    - cbn [mbind result_bind].
      rewrite (buy_fails_undefined _ _ e Hbuy). reflexivity. }
  split; [|exact Hgrown].
  destruct (Fund.update_to exp file_ last year) as [[grown f]|e] eqn:Hgrow.
  - exists undefined_behaviour. exact (Hgrown grown f eq_refl).
  - exists e. apply Hstep. intros to_invest.
    rewrite Hfunds, invest_starts_at_last_fund, Hgrow. reflexivity.
Qed.

Lemma summary_step_is_undefined_witness :
  Main.step (fun _ => 1) Household.file_ false Household.deficit (1 # 52)
  = Fail undefined_behaviour.
Proof.
  assert (Hgrow : exists grown f,
            Fund.update_to (fun _ => 1) Household.file_
              (Fund.set_offset_percent Household.file_
                 (Household.fund "retirement" 5000) (1 # 2)) (1 # 52)
            = Ok (grown, f))
    by (vm_compute; eexists; eexists; reflexivity).
  destruct Hgrow as (grown & f & Hgrow).
  destruct (summary_step_is_undefined (fun _ => 1) Household.file_
              Household.deficit (1 # 52)
              [Fund.set_offset_percent Household.file_
                 (Household.fund "market" 5000) (1 # 2)]
              (Fund.set_offset_percent Household.file_
                 (Household.fund "retirement" 5000) (1 # 2)) eq_refl)
    as [_ Hundefined].
  exact (Hundefined grown f Hgrow).
Defined.

(** ** The offset of a run *)

Lemma floor_of_bounds (x : double) (lo hi : Z) :
  inject_Z lo <= x -> x < inject_Z hi -> (lo <= floor x < hi)%Z.
Proof.
  intros Hlo Hhi. unfold floor. split.
  - rewrite <- (Qfloor_Z lo). apply Qfloor_resp_le. exact Hlo.
  - rewrite Zlt_Qlt. apply Qle_lt_trans with x; [apply Qfloor_le | exact Hhi].
Qed.

(** X17: with the offset set from a fraction of the file in [0, 1), as the
    random draw gives it, the price at year 0 is a sample of the file, the
    one at [floor(percent * size)].  With an override of 2 or more every
    look-up at a year that is not negative throws. *)
Theorem offset_inside_the_file (file_ : list double) (f : MarketFund.t)
    (percent year : double) :
  let g := MarketFund.set_offset_percent file_ f percent in
  let size := MarketFund.data_size file_ in
  (2 * size < size_max)%Z ->
  (0 <= percent -> percent < 1 -> file_ <> [] ->
   exists x,
     MarketFund.lookup file_ g 0 = Ok x
     /\ file_ !! Z.to_nat (floor (percent * inject_Z size)) = Some x)
  /\ (2 <= percent -> 0 <= year ->
      (floor (year * (36525 # 100) + MarketFund.day_offset_ g) < size_max)%Z ->
      MarketFund.lookup file_ g year
      = Fail (runtime_error "Invalid after index.")).
Proof.
  intros g size Hsize.
  assert (Hsz : (0 <= size)%Z) by (unfold size, MarketFund.data_size; lia).
  assert (Hq : 0 <= inject_Z size)
    by (change (inject_Z 0 <= inject_Z size); rewrite <- Zle_Qle; exact Hsz).
  split.
  - intros H0 H1 Hdata.
    assert (Hpos : (0 < size)%Z).
    { unfold size, MarketFund.data_size. destruct file_; [congruence|].
      simpl. lia. }
    assert (Hqpos : 0 < inject_Z size)
      by (change (inject_Z 0 < inject_Z size); rewrite <- Zlt_Qlt;
          exact Hpos).
    assert (Hday : floor (0 * (36525 # 100) + MarketFund.day_offset_ g)
                   = floor (percent * inject_Z size)).
    { unfold floor. apply Qfloor_comp. unfold g.
      cbn [MarketFund.set_offset_percent MarketFund.day_offset_].
      fold size. ring. }
    destruct (floor_of_bounds (percent * inject_Z size) 0 size) as [Hlo Hhi].
    { pose proof (Qmult_le_0_compat percent (inject_Z size) H0 Hq) as Hprod.
      exact Hprod. }
    { apply Qlt_le_trans with (1 * inject_Z size).
      - apply Qmult_lt_compat_r; assumption.
      - rewrite Qmult_1_l. apply Qle_refl. }
    rewrite (lookup_by_index file_ g 0 _ Hday) by (fold size; lia).
    fold size. rewrite (proj2 (Z.ltb_lt _ _) Hhi).
    destruct (read_in_range file_ (floor (percent * inject_Z size)))
      as (x & Hx & Hread).
    { fold (MarketFund.data_size file_). fold size. lia. }
    exists x. split; assumption.
  - intros H2 Hyear Hmax.
    assert (Hday : inject_Z (2 * size)
                   <= year * (36525 # 100) + MarketFund.day_offset_ g).
    { unfold g. cbn [MarketFund.set_offset_percent MarketFund.day_offset_].
      fold size. rewrite inject_Z_mult.
      assert (Hy : 0 <= year * (36525 # 100))
        by (apply Qmult_le_0_compat; [exact Hyear | discriminate]).
      assert (Hp : inject_Z 2 * inject_Z size <= percent * inject_Z size)
        by (apply Qmult_le_compat_r; assumption).
      lra. }
    assert (Hfloor : (2 * size
                      <= floor (year * (36525 # 100)
                                + MarketFund.day_offset_ g))%Z).
    { unfold floor. rewrite <- (Qfloor_Z (2 * size)).
      apply Qfloor_resp_le. exact Hday. }
    rewrite (lookup_by_index file_ g year _ eq_refl) by (fold size; lia).
    fold size.
    rewrite (proj2 (Z.ltb_ge _ _)) by lia.
    rewrite (proj2 (Z.leb_le _ _)) by lia. reflexivity.
Qed.

Lemma offset_inside_the_file_witness :
  let f :=
    MarketFund.Build
      (FundBase.Build (ModelBase.Build "market" 0 infinity 0) ∅ 0 0) 2 0 in
  exists x,
    MarketFund.lookup [10; 11; 12; 20]
      (MarketFund.set_offset_percent [10; 11; 12; 20] f (7 # 10)) 0 = Ok x
    /\ [10; 11; 12; 20] !! Z.to_nat (floor ((7 # 10) * inject_Z 4)) = Some x.
Proof.
  intros f.
  destruct (offset_inside_the_file [10; 11; 12; 20] f (7 # 10) 0)
    as [Hinside _].
  - vm_compute. reflexivity.
  - apply Hinside; first [discriminate | reflexivity].
Defined.

(** * The argument parser *)

Lemma string_compare_refl (s : string) : String.compare s s = Eq.
Proof.
  pose proof (String.compare_antisym s s) as H.
  destruct (String.compare s s); [reflexivity | discriminate | discriminate].
Qed.

Lemma find_assign {W} (name : string) (arg : ArgumentParser.Argument W)
    (args : list (string * ArgumentParser.Argument W)) :
  ArgumentParser.find name (ArgumentParser.assign name arg args) = Some arg
  /\ forall other, other <> name ->
       ArgumentParser.find other (ArgumentParser.assign name arg args)
       = ArgumentParser.find other args.
Proof.
  induction args as [|[n a] rest [IHsame IHother]];
    cbn [ArgumentParser.assign ArgumentParser.find].
  - rewrite String.eqb_refl. split; [reflexivity|].
    intros other Hother. rewrite (proj2 (String.eqb_neq other name) Hother).
    reflexivity.
  - destruct (String.compare name n) eqn:Hcompare;
      cbn [ArgumentParser.find].
    + apply String.compare_eq_iff in Hcompare. subst n.
      rewrite String.eqb_refl. split; [reflexivity|].
      intros other Hother.
      rewrite (proj2 (String.eqb_neq other name) Hother). reflexivity.
    + rewrite String.eqb_refl. split; [reflexivity|].
      intros other Hother.
      rewrite (proj2 (String.eqb_neq other name) Hother). reflexivity.
    + assert (Hne : name <> n).
      { intros ->. rewrite string_compare_refl in Hcompare. discriminate. }
      rewrite (proj2 (String.eqb_neq name n) Hne). split; [exact IHsame|].
      intros other Hother. rewrite (IHother other Hother). reflexivity.
Qed.

(** X19: [add_argument] turns away only the empty name and a name whose
    first character is NUL, with a [std::runtime_error]; any other name,
    with a leading dash or not, is registered.  After it [find] returns the
    argument just given, also when the name was registered before, and
    every other name finds what it found before. *)
Theorem add_then_find {W} (c : Ascii.ascii) (tail : string)
    (arg : ArgumentParser.Argument W)
    (args : list (string * ArgumentParser.Argument W)) :
  (c <> Ascii.zero ->
   exists args',
     ArgumentParser.add_argument (String c tail) arg args
       = ArgumentParser.returned args'
     /\ ArgumentParser.find (String c tail) args' = Some arg
     /\ forall other, other <> String c tail ->
          ArgumentParser.find other args' = ArgumentParser.find other args)
  /\ (c = Ascii.zero ->
      exists what,
        ArgumentParser.add_argument (String c tail) arg args
        = ArgumentParser.threw (ArgumentParser.std_runtime_error what))
  /\ (exists what,
        ArgumentParser.add_argument "" arg args
        = ArgumentParser.threw (ArgumentParser.std_runtime_error what)).
Proof.
  split; [|split].
  - intros Hc. unfold ArgumentParser.add_argument.
    rewrite (proj2 (Ascii.eqb_neq c Ascii.zero) Hc).
    eexists. split; [reflexivity|]. apply find_assign.
  - intros ->. eexists. reflexivity.
  - eexists. reflexivity.
Qed.

Lemma add_then_find_witness :
  exists args',
    ArgumentParser.add_argument "verbose" (@ArgumentParser.help_argument unit)
      [("--help"%string, ArgumentParser.help_argument)]
      = ArgumentParser.returned args'
    /\ ArgumentParser.find "verbose" args'
       = Some ArgumentParser.help_argument
    /\ ArgumentParser.find "--help" args'
       = Some ArgumentParser.help_argument.
Proof.
  destruct (add_then_find (Ascii.ascii_of_nat 118) "erbose"
              (@ArgumentParser.help_argument unit)
              [("--help"%string, ArgumentParser.help_argument)])
    as (Hadded & _ & _).
  destruct Hadded as (args' & Hadd & Hfind & Hother).
  - discriminate.
  - exists args'. split; [exact Hadd|]. split; [exact Hfind|].
    rewrite Hother by discriminate. reflexivity.
Defined.

(** The alternative a value holds is the one its argument's callback
    reads: a [bool] for a flag, a [double] otherwise. *)
Local Abbreviation typed a :=
  (match ArgumentParser.value a with
   | None => True
   | Some (ArgumentParser.parsed_bool _) => ArgumentParser.is_flag a = true
   | Some (ArgumentParser.parsed_double _) => ArgumentParser.is_flag a = false
   end).

Local Abbreviation with_value a v :=
  (ArgumentParser.Build (ArgumentParser.callback a)
     (ArgumentParser.description a) (ArgumentParser.is_flag a) (Some v)).

Lemma names_set_value {W} (n : string) (v : ArgumentParser.Parsed)
    (args : list (string * ArgumentParser.Argument W)) :
  map fst (ArgumentParser.set_value n v args) = map fst args.
Proof.
  induction args as [|[m a] rest IH]; cbn [ArgumentParser.set_value map];
    [reflexivity|].
  destruct (String.eqb n m); cbn [map fst]; [reflexivity|].
  rewrite IH. reflexivity.
Qed.

Lemma find_set_value {W} (n name : string) (v : ArgumentParser.Parsed)
    (args : list (string * ArgumentParser.Argument W)) :
  ArgumentParser.find name (ArgumentParser.set_value n v args) =
    option_map (fun a => if String.eqb name n then with_value a v else a)
      (ArgumentParser.find name args).
Proof.
  induction args as [|[m a] rest IH];
    cbn [ArgumentParser.set_value ArgumentParser.find option_map];
    [reflexivity|].
  destruct (String.eqb n m) eqn:Enm; cbn [ArgumentParser.find].
  - apply String.eqb_eq in Enm. subst m.
    destruct (String.eqb name n) eqn:Ename; cbn [option_map]; [reflexivity|].
    destruct (ArgumentParser.find name rest); reflexivity.
  - destruct (String.eqb name m) eqn:Ename; cbn [option_map]; [|exact IH].
    apply String.eqb_eq in Ename. subst m.
    rewrite String.eqb_sym, Enm. reflexivity.
Qed.

Lemma typed_set_value {W} (n : string) (v : ArgumentParser.Parsed)
    (a : ArgumentParser.Argument W)
    (args : list (string * ArgumentParser.Argument W)) :
  ArgumentParser.find n args = Some a ->
  typed (with_value a v) ->
  Forall (fun p => typed p.2) args ->
  Forall (fun p => typed p.2) (ArgumentParser.set_value n v args).
Proof.
  intros Hfind Hv.
  induction args as [|[m b] rest IH]; intros Hall;
    cbn [ArgumentParser.set_value ArgumentParser.find] in *; [constructor|].
  apply Forall_cons in Hall as [Hb Hrest].
  destruct (String.eqb n m).
  - injection Hfind as ->. constructor; [exact Hv | exact Hrest].
  - constructor; [exact Hb | exact (IH Hfind Hrest)].
Qed.

Lemma scan_frame {W} (stod : string -> ArgumentParser.conversion) (n : nat) :
  forall (tokens : list string)
         (args args' : list (string * ArgumentParser.Argument W)),
  (length tokens <= n)%nat ->
  ArgumentParser.scan stod tokens args = ArgumentParser.returned args' ->
  map fst args' = map fst args
  /\ (forall name a',
        ArgumentParser.find name args' = Some a' ->
        exists a,
          ArgumentParser.find name args = Some a
          /\ ArgumentParser.callback a' = ArgumentParser.callback a
          /\ ArgumentParser.is_flag a' = ArgumentParser.is_flag a
          /\ ArgumentParser.description a' = ArgumentParser.description a
          /\ (~ In name tokens -> a' = a))
  /\ (Forall (fun p => typed p.2) args -> Forall (fun p => typed p.2) args').
Proof.
  induction n as [|n IH]; intros tokens args args' Hlen Hscan.
  { destruct tokens; [|simpl in Hlen; lia].
    injection Hscan as <-. split; [reflexivity|]. split; [|auto].
    intros name a' Hfind. exists a'. repeat split; auto. }
  destruct tokens as [|arg rest].
  { injection Hscan as <-. split; [reflexivity|]. split; [|auto].
    intros name a' Hfind. exists a'. repeat split; auto. }
  cbn [ArgumentParser.scan] in Hscan.
  destruct (ArgumentParser.find arg args) as [a|] eqn:Harg; [|discriminate].
  assert (Hset : forall v rest' ,
            (length rest' <= n)%nat ->
            incl rest' rest ->
            typed (with_value a v) ->
            ArgumentParser.scan stod rest' (ArgumentParser.set_value arg v args)
              = ArgumentParser.returned args' ->
            map fst args' = map fst args
            /\ (forall name a',
                  ArgumentParser.find name args' = Some a' ->
                  exists a0,
                    ArgumentParser.find name args = Some a0
                    /\ ArgumentParser.callback a' = ArgumentParser.callback a0
                    /\ ArgumentParser.is_flag a' = ArgumentParser.is_flag a0
                    /\ ArgumentParser.description a'
                       = ArgumentParser.description a0
                    /\ (~ In name (arg :: rest) -> a' = a0))
            /\ (Forall (fun p => typed p.2) args ->
                Forall (fun p => typed p.2) args')).
  { intros v rest' Hlen' Hincl Hv Hrest.
    destruct (IH rest' _ args' Hlen' Hrest) as (Hnames & Hfinds & Htyped).
    split; [rewrite Hnames; apply names_set_value|]. split.
    - intros name a' Hfind.
      destruct (Hfinds name a' Hfind) as (a1 & Hfind1 & Hcb & Hflag & Hd & Hsame).
      rewrite find_set_value in Hfind1.
      destruct (ArgumentParser.find name args) as [a0|]; [|discriminate].
      cbn [option_map] in Hfind1. injection Hfind1 as <-.
      exists a0. split; [reflexivity|].
      destruct (String.eqb name arg) eqn:Ename.
      + cbn [ArgumentParser.callback ArgumentParser.is_flag
             ArgumentParser.description] in *.
        repeat split; try assumption.
        intros Hnot. exfalso. apply Hnot. left.
        apply String.eqb_eq in Ename. congruence.
      + repeat split; try assumption.
        intros Hnot. apply Hsame. intros Hin. apply Hnot. right.
        apply Hincl. exact Hin.
    - intros Hall. apply Htyped.
      exact (typed_set_value arg v a args Harg Hv Hall). }
  destruct (ArgumentParser.is_flag a) eqn:Hflag.
  - apply (Hset (ArgumentParser.parsed_bool true) rest).
    + simpl in Hlen. lia.
    + apply incl_refl.
    + reflexivity.
    + exact Hscan.
  - destruct rest as [|next rest].
    { injection Hscan as <-. split; [reflexivity|]. split; [|auto].
      intros name a' Hfind. exists a'. repeat split; auto. }
    destruct (stod next) as [d| |]; [| |discriminate].
    + apply (Hset (ArgumentParser.parsed_double d) rest).
      * simpl in Hlen. lia.
      * apply incl_tl, incl_refl.
      * reflexivity.
      * exact Hscan.
    + destruct (IH rest args args' ltac:(simpl in Hlen; lia) Hscan)
        as (Hnames & Hfinds & Htyped).
      split; [exact Hnames|]. split; [|exact Htyped].
      intros name a' Hfind.
      destruct (Hfinds name a' Hfind) as (a0 & H0 & Hcb & Hfl & Hd & Hsame).
      exists a0. repeat split; try assumption.
      intros Hnot. apply Hsame. intros Hin. apply Hnot. right. right.
      exact Hin.
Qed.

(** X20: when the first loop of [parse] gets through the command line, the
    registered names are the same, in the same order, with the same
    callbacks, flags and descriptions; an argument whose name is not among
    the tokens has its value untouched; and if every value held a [bool]
    for a flag and a [double] otherwise, as the defaults do, every value
    still does, so that no callback is handed the wrong alternative. *)
Theorem scan_keeps_registrations {W}
    (stod : string -> ArgumentParser.conversion) (tokens : list string)
    (args args' : list (string * ArgumentParser.Argument W)) :
  ArgumentParser.scan stod tokens args = ArgumentParser.returned args' ->
  map fst args' = map fst args
  /\ (forall name a',
        ArgumentParser.find name args' = Some a' ->
        exists a,
          ArgumentParser.find name args = Some a
          /\ ArgumentParser.callback a' = ArgumentParser.callback a
          /\ ArgumentParser.is_flag a' = ArgumentParser.is_flag a
          /\ ArgumentParser.description a' = ArgumentParser.description a
          /\ (~ In name tokens -> a' = a))
  /\ (Forall (fun p => typed p.2) args -> Forall (fun p => typed p.2) args').
Proof.
  apply (scan_frame stod (length tokens)). apply Nat.le_refl.
Qed.

Lemma scan_keeps_registrations_witness :
  exists args',
    ArgumentParser.scan CommandLine.stod ["--sim-years"; "10"]%string
      CommandLine.registered = ArgumentParser.returned args'
    /\ map fst args' = map fst CommandLine.registered
    /\ Forall (fun p => typed p.2) args'.
Proof.
  assert (Hscan : exists args',
            ArgumentParser.scan CommandLine.stod ["--sim-years"; "10"]%string
              CommandLine.registered = ArgumentParser.returned args')
    by (vm_compute; eexists; reflexivity).
  destruct Hscan as (args' & Hscan). exists args'. split; [exact Hscan|].
  destruct (scan_keeps_registrations CommandLine.stod
              ["--sim-years"; "10"]%string CommandLine.registered args' Hscan)
    as (Hnames & _ & Htyped).
  split; [exact Hnames|]. apply Htyped.
  repeat constructor.
Defined.

Lemma deliver_returned {W}
    (args : list (string * ArgumentParser.Argument W)) :
  forall w w' : W,
  ArgumentParser.deliver args w = ArgumentParser.returned w' ->
  Forall (fun p => ArgumentParser.is_flag p.2 = true
                   \/ is_Some (ArgumentParser.value p.2)) args.
Proof.
  induction args as [|[name a] rest IH]; intros w w' Hrun; [constructor|].
  cbn [ArgumentParser.deliver] in Hrun.
  constructor.
  - cbn [snd]. destruct (ArgumentParser.is_flag a); [left; reflexivity|].
    right. destruct (ArgumentParser.value a); [eexists; reflexivity|].
    discriminate.
  - destruct (if ArgumentParser.is_flag a then _ else _) as [p|];
      [|discriminate].
    destruct (ArgumentParser.callback a p w) as [w1|error|e] eqn:Hcall.
    + exact (IH w1 w' Hrun).
    + discriminate.
    + destruct e; discriminate.
Qed.

(** X21: [parse] returns only when every argument that is not a flag has a
    value, from the command line or by default: if one has none, [parse]
    ends in [help] or with an exception, never by returning.  The names it
    returns with are the registered ones. *)
Theorem parse_returns_with_values {W}
    (stod : string -> ArgumentParser.conversion) (tokens : list string)
    (args args' : list (string * ArgumentParser.Argument W)) (w w' : W) :
  ArgumentParser.parse stod tokens args w
    = ArgumentParser.returned (args', w') ->
  Forall (fun p => ArgumentParser.is_flag p.2 = true
                   \/ is_Some (ArgumentParser.value p.2)) args'
  /\ map fst args' = map fst args.
Proof.
  unfold ArgumentParser.parse.
  destruct (ArgumentParser.scan stod tokens args) as [args1|error|e] eqn:Hscan;
    [|discriminate|discriminate].
  destruct (ArgumentParser.deliver args1 w) as [w1|error|e] eqn:Hrun;
    [|discriminate|discriminate].
  intros [= <- <-]. split.
  - exact (deliver_returned args1 w w1 Hrun).
  - apply (scan_frame stod (length tokens) tokens args args1 (Nat.le_refl _)
             Hscan).
Qed.

Lemma parse_returns_with_values_witness :
  exists args' o,
    ArgumentParser.parse CommandLine.stod
      ["--verbose"; "--sim-years"; "2"]%string CommandLine.registered
      (CommandLine.Build 0 false)
    = ArgumentParser.returned (args', o)
    /\ CommandLine.years o = 2
    /\ CommandLine.verbose o = true
    /\ map fst args' = map fst CommandLine.registered.
Proof.
  assert (Hrun : exists args' o,
            ArgumentParser.parse CommandLine.stod
              ["--verbose"; "--sim-years"; "2"]%string CommandLine.registered
              (CommandLine.Build 0 false)
            = ArgumentParser.returned (args', o)
            /\ CommandLine.years o = 2
            /\ CommandLine.verbose o = true)
    by (vm_compute; eexists; eexists; repeat split; reflexivity).
  destruct Hrun as (args' & o & Hrun & Hyears & Hverbose).
  exists args', o. split; [exact Hrun|]. split; [exact Hyears|].
  split; [exact Hverbose|].
  exact (proj2 (parse_returns_with_values _ _ _ _ _ _ Hrun)).
Defined.
